(** * YouTube Downloader front end: ProgressTracker, App controller and API gateway

    Shallow embedding of [frontend2/js/api.js] (API, ProgressTracker),
    [frontend2/js/ui.js] (UI.isValidUrl), the App object (unnamed/part_001)
    and the CONFIG constants (frontend/js/config.js, unnamed/part_000).

    The asynchronous code is modelled as an event-driven world: the
    browser runs one handler at a time, to completion.  The events are
    the method calls made on a tracker, the firing of a live
    [setInterval] timer, the settling of an outstanding [getStatus]
    fetch, and the App-level events of a download session. *)

From Stdlib Require Import String Ascii ZArith List Bool Lia.
From stdpp Require Import base gmap list strings pretty.

Local Set Warnings "-register-all".

(* ------------------------------------------------------------------ *)
(** ** CONFIG *)

Module CONFIG.
Definition PROGRESS_POLL_INTERVAL : nat := 1000.
Definition MAX_URL_LENGTH : nat := 2048.
Definition DOWNLOAD_TYPES_VIDEO : string := "video".
Definition DOWNLOAD_TYPES_AUDIO : string := "audio".
Definition DEFAULT_VIDEO_QUALITY : string := "best".
Definition DEFAULT_AUDIO_FORMAT : string := "mp3".
Definition ENDPOINTS_INFO : string := "/api/info".
Definition ENDPOINTS_DOWNLOAD : string := "/api/download".
Definition ENDPOINTS_PROGRESS : string := "/api/progress".
Definition ENDPOINTS_FILE : string := "/api/file".
Definition ENDPOINTS_DOWNLOADS : string := "/api/downloads".
Definition ENDPOINTS_STATS : string := "/api/stats".
Definition ENDPOINTS_HEALTH : string := "/health".
End CONFIG.

(* ------------------------------------------------------------------ *)
(** ** Progress reports and the poll continuation of [checkProgress] *)

(** The JSON report returned by [API.getProgress]; the fields the code
    reads.  [error] is [None] when the property is absent (undefined). *)
Record progress := mkProgress {
  status : string;
  error : option string;
  filename : option string
}.

(** How the awaited [API.getProgress(this.downloadId)] settles. *)
Inductive settled :=
| Fulfilled (p : progress)
| Rejected (message : string).

(** [progress.error || 'Download failed']: a missing or empty string is
    falsy. *)
Definition or_default (e : option string) (dflt : string) : string :=
  match e with
  | Some s => if String.eqb s "" then dflt else s
  | None => dflt
  end.

(** The statements [checkProgress] runs after its [await], in order. *)
Inductive action :=
| A_stop
| A_update (p : progress)
| A_complete (p : progress)
| A_error (msg : string).

(** The body of [checkProgress] after [await API.getProgress(...)].
    The callbacks App passes do not throw, so the [catch] block is only
    reached through a rejected fetch. *)
Definition checkProgress_settled (r : settled) : list action :=
  match r with
  | Fulfilled p =>
      if String.eqb (status p) "completed" then [A_stop; A_complete p]
      else if String.eqb (status p) "error"
      then [A_stop; A_error (or_default (error p) "Download failed")]
      else [A_update p]
  | Rejected m => [A_stop; A_error m]
  end.

(* ------------------------------------------------------------------ *)
(** ** Tracker objects and the world *)

(** A [ProgressTracker] object.  Browser timer ids are positive, so
    [if (this.interval)] is the test [interval <> None]. *)
Record tracker := mkTracker {
  downloadId : string;
  interval : option positive;
  isTracking : bool
}.

(** [new ProgressTracker(downloadId, ...)] *)
Definition new_tracker (d : string) : tracker :=
  mkTracker d None false.

Inductive callback :=
| CB_update (p : progress)
| CB_complete (p : progress)
| CB_error (msg : string).

(** Observable log.  A callback entry records the state of its tracker
    at the moment the callback is invoked: the [interval] field, the
    [isTracking] flag, and whether a live timer of the tracker exists. *)
Inductive entry :=
| E_poll (k : nat) (id : string) (n : nat)
| E_stopped (k : nat)
| E_callback (k : nat) (c : callback) (iv : option positive) (tr : bool) (live : bool).

(** Download sections of the page (UI.showProgress/showSuccess/showError;
    [None] after UI.hideAllSections). *)
Inductive section := S_progress | S_success | S_error.

Record world := mkWorld {
  trackers : gmap nat tracker;          (* the tracker objects, by allocation order *)
  next_obj : nat;
  timers : list (positive * nat);       (* live setInterval timers and their owner *)
  next_timer : positive;
  inflight : list (nat * nat);          (* outstanding getStatus calls: (call id, owner) *)
  next_poll : nat;
  progressTracker : option nat;         (* App.state.progressTracker *)
  currentDownloadId : option string;    (* App.state.currentDownloadId *)
  shown : option section;
  log : list entry
}.

Definition set_trackers (m : gmap nat tracker) (w : world) : world :=
  mkWorld m (next_obj w) (timers w) (next_timer w) (inflight w) (next_poll w)
    (progressTracker w) (currentDownloadId w) (shown w) (log w).
Definition set_next_obj (o : nat) (w : world) : world :=
  mkWorld (trackers w) o (timers w) (next_timer w) (inflight w) (next_poll w)
    (progressTracker w) (currentDownloadId w) (shown w) (log w).
Definition set_timers (ts : list (positive * nat)) (w : world) : world :=
  mkWorld (trackers w) (next_obj w) ts (next_timer w) (inflight w) (next_poll w)
    (progressTracker w) (currentDownloadId w) (shown w) (log w).
Definition set_next_timer (h : positive) (w : world) : world :=
  mkWorld (trackers w) (next_obj w) (timers w) h (inflight w) (next_poll w)
    (progressTracker w) (currentDownloadId w) (shown w) (log w).
Definition set_inflight (l : list (nat * nat)) (w : world) : world :=
  mkWorld (trackers w) (next_obj w) (timers w) (next_timer w) l (next_poll w)
    (progressTracker w) (currentDownloadId w) (shown w) (log w).
Definition set_next_poll (n : nat) (w : world) : world :=
  mkWorld (trackers w) (next_obj w) (timers w) (next_timer w) (inflight w) n
    (progressTracker w) (currentDownloadId w) (shown w) (log w).
Definition set_progressTracker (o : option nat) (w : world) : world :=
  mkWorld (trackers w) (next_obj w) (timers w) (next_timer w) (inflight w) (next_poll w)
    o (currentDownloadId w) (shown w) (log w).
Definition set_currentDownloadId (o : option string) (w : world) : world :=
  mkWorld (trackers w) (next_obj w) (timers w) (next_timer w) (inflight w) (next_poll w)
    (progressTracker w) o (shown w) (log w).
Definition set_shown (s : option section) (w : world) : world :=
  mkWorld (trackers w) (next_obj w) (timers w) (next_timer w) (inflight w) (next_poll w)
    (progressTracker w) (currentDownloadId w) s (log w).
Definition add_log (e : entry) (w : world) : world :=
  mkWorld (trackers w) (next_obj w) (timers w) (next_timer w) (inflight w) (next_poll w)
    (progressTracker w) (currentDownloadId w) (shown w) (log w ++ [e]).

(** Timer service. *)
Definition clearInterval (h : positive) (ts : list (positive * nat)) : list (positive * nat) :=
  filter (fun p => p.1 <> h) ts.

Definition has_timer (k : nat) (ts : list (positive * nat)) : bool :=
  existsb (fun p => Nat.eqb p.2 k) ts.

(** [stop()] *)
Definition stop (k : nat) (w : world) : world :=
  match trackers w !! k with
  | None => w
  | Some t =>
      let w1 := match interval t with
                | Some h => set_timers (clearInterval h (timers w)) w
                | None => w
                end in
      set_trackers (<[k := mkTracker (downloadId t) None false]> (trackers w1)) w1
  end.

(** The synchronous part of [checkProgress()]: [API.getProgress] issues
    its fetch, then the function suspends at its [await]. *)
Definition checkProgress (k : nat) (w : world) : world :=
  match trackers w !! k with
  | None => w
  | Some t =>
      let n := next_poll w in
      add_log (E_poll k (downloadId t) n)
        (set_next_poll (S n) (set_inflight (inflight w ++ [(n, k)]) w))
  end.

(** [start()] *)
Definition start (k : nat) (w : world) : world :=
  match trackers w !! k with
  | None => w
  | Some t =>
      if isTracking t then w
      else
        let w1 := set_trackers (<[k := mkTracker (downloadId t) (interval t) true]> (trackers w)) w in
        let w2 := checkProgress k w1 in
        let h := next_timer w2 in
        let w3 := set_next_timer (Pos.succ h) (set_timers (timers w2 ++ [(h, k)]) w2) in
        match trackers w3 !! k with
        | None => w3
        | Some t3 =>
            set_trackers (<[k := mkTracker (downloadId t3) (Some h) (isTracking t3)]> (trackers w3)) w3
        end
  end.

(** Invoking one of the callbacks App.trackProgress passes: onUpdate
    (UI.updateProgress, no section change), onComplete (UI.showSuccess),
    onError (UI.showError). *)
Definition invoke (k : nat) (c : callback) (w : world) : world :=
  match trackers w !! k with
  | None => w
  | Some t =>
      let w1 := add_log (E_callback k c (interval t) (isTracking t) (has_timer k (timers w))) w in
      match c with
      | CB_update _ => w1
      | CB_complete _ => set_shown (Some S_success) w1
      | CB_error _ => set_shown (Some S_error) w1
      end
  end.

Definition exec_action (k : nat) (w : world) (a : action) : world :=
  match a with
  | A_stop => stop k w
  | A_update p => invoke k (CB_update p) w
  | A_complete p => invoke k (CB_complete p) w
  | A_error m => invoke k (CB_error m) w
  end.

Definition exec_actions (k : nat) (acts : list action) (w : world) : world :=
  fold_left (exec_action k) acts w.

(** Removes the outstanding call [n], returning its owner. *)
Fixpoint take_call (n : nat) (l : list (nat * nat)) : option (nat * list (nat * nat)) :=
  match l with
  | [] => None
  | (m, k) :: l' =>
      if Nat.eqb m n then Some (k, l')
      else match take_call n l' with
           | Some (k', r) => Some (k', (m, k) :: r)
           | None => None
           end
  end.

(** The fetch of call [n] settles with [r]: [checkProgress] resumes. *)
Definition settle (n : nat) (r : settled) (w : world) : world :=
  match take_call n (inflight w) with
  | None => w
  | Some (k, rest) => exec_actions k (checkProgress_settled r) (set_inflight rest w)
  end.

(** Timer [h] fires: its callback [() => this.checkProgress()]. *)
Definition tick (h : positive) (w : world) : world :=
  match find (fun p => bool_decide (p.1 = h)) (timers w) with
  | Some (_, k) => checkProgress k w
  | None => w
  end.

(** [App.trackProgress()] *)
Definition trackProgress (w : world) : world :=
  let w1 := match progressTracker w with
            | Some k => stop k w
            | None => w
            end in
  let k := next_obj w1 in
  let d := match currentDownloadId w1 with Some d => d | None => ""%string end in
  let w2 := set_next_obj (S k) (set_trackers (<[k := new_tracker d]> (trackers w1)) w1) in
  start k (set_progressTracker (Some k) w2).

(** The rest of [App.startDownload()] once [API.startDownload] fulfilled
    with [download_id = d]. *)
Definition dispatch_ok (d : string) (w : world) : world :=
  trackProgress (set_shown (Some S_progress) (set_currentDownloadId (Some d) w)).

Inductive event :=
| Start (k : nat)                 (* tracker k's start() *)
| Stop (k : nat)                  (* tracker k's stop() *)
| Tick (h : positive)             (* timer h fires *)
| Settle (n : nat) (r : settled)  (* getStatus call n settles *)
| DispatchOk (d : string)         (* App.startDownload: API.startDownload fulfilled *)
| DispatchFailed (msg : string)   (* App.startDownload: API.startDownload rejected *)
| InfoFailed (msg : string)       (* App.fetchVideoInfo: API.getVideoInfo rejected *)
| NewDownload.                    (* newDownloadBtn click *)

Definition step (w : world) (e : event) : world :=
  match e with
  | Start k => start k w
  | Stop k => add_log (E_stopped k) (stop k w)
  | Tick h => tick h w
  | Settle n r => settle n r w
  | DispatchOk d => dispatch_ok d w
  | DispatchFailed _ => set_shown (Some S_error) w
  | InfoFailed _ => set_shown (Some S_error) w
  | NewDownload => set_shown None w   (* UI.resetDownloadUI; UI.switchTab *)
  end.

Definition run (w : world) (evs : list event) : world := fold_left step evs w.

(** A freshly constructed tracker (object 0) for download [d]. *)
Definition w_tracker (d : string) : world :=
  mkWorld {[0 := new_tracker d]} 1 [] 1%positive [] 0 None None None [].

(** The App at page load. *)
Definition w_app : world :=
  mkWorld ∅ 0 [] 1%positive [] 0 None None None [].

Definition p_downloading : progress := mkProgress "downloading" None None.
Definition p_completed : progress := mkProgress "completed" None (Some "x.mp4"%string).

Example scenario_a_shape :
  log (run (w_tracker "a") [Start 0; Settle 0 (Fulfilled p_downloading)]) =
  [E_poll 0 "a" 0; E_callback 0 (CB_update p_downloading) (Some 1%positive) true true].
Proof. reflexivity. Qed.

(* ------------------------------------------------------------------ *)
(** ** Well-formedness of the tracker heap and the timer service *)

(** Every live timer belongs to a tracker whose [interval] field holds
    it; a tracker that is not tracking has no [interval]; object ids at
    or above [next_obj] are unallocated. *)
Record heap_ok (m : gmap nat tracker) (ts : list (positive * nat)) (o : nat) : Prop := {
  ok_timers : forall h k, (h, k) ∈ ts -> exists t, m !! k = Some t /\ interval t = Some h;
  ok_idle : forall k t, m !! k = Some t -> isTracking t = false -> interval t = None;
  ok_fresh : forall k, o <= k -> m !! k = None
}.

Definition wf (w : world) : Prop := heap_ok (trackers w) (timers w) (next_obj w).

Create HintDb world_db.

Lemma wf_add_log e w : wf w -> wf (add_log e w).
Proof. unfold wf; simpl; auto. Qed.
Lemma wf_set_shown s w : wf w -> wf (set_shown s w).
Proof. unfold wf; simpl; auto. Qed.
Lemma wf_set_inflight l w : wf w -> wf (set_inflight l w).
Proof. unfold wf; simpl; auto. Qed.
Lemma wf_set_next_poll n w : wf w -> wf (set_next_poll n w).
Proof. unfold wf; simpl; auto. Qed.
Lemma wf_set_progressTracker o w : wf w -> wf (set_progressTracker o w).
Proof. unfold wf; simpl; auto. Qed.
Lemma wf_set_currentDownloadId o w : wf w -> wf (set_currentDownloadId o w).
Proof. unfold wf; simpl; auto. Qed.
Lemma wf_set_next_timer h w : wf w -> wf (set_next_timer h w).
Proof. unfold wf; simpl; auto. Qed.

#[export] Hint Resolve wf_add_log wf_set_shown wf_set_inflight wf_set_next_poll
  wf_set_progressTracker wf_set_currentDownloadId wf_set_next_timer : world_db.

Lemma wf_checkProgress k w : wf w -> wf (checkProgress k w).
Proof.
  intros H; unfold checkProgress; destruct (trackers w !! k); auto with world_db.
Qed.

Lemma wf_invoke k c w : wf w -> wf (invoke k c w).
Proof.
  intros H; unfold invoke; destruct (trackers w !! k); [|auto].
  destruct c; auto with world_db.
Qed.

Lemma wf_stop k w : wf w -> wf (stop k w).
Proof.
  intros [Ht Hi Hf]; unfold stop.
  destruct (trackers w !! k) as [t|] eqn:Ek; [|constructor; auto].
  assert (Hk : k < next_obj w).
  { destruct (decide (k < next_obj w)); [done|]. rewrite Hf in Ek; [done|lia]. }
  destruct (interval t) as [h|] eqn:Ei; constructor; simpl.
  - intros h' k' Hin. apply list_elem_of_filter in Hin as [Hne Hin]; simpl in Hne.
    destruct (decide (k = k')) as [<-|Hne'].
    + destruct (Ht _ _ Hin) as (t' & E' & I'). rewrite Ek in E'; injection E' as <-.
      congruence.
    + rewrite lookup_insert_ne by done. apply Ht; done.
  - intros k' t'. destruct (decide (k = k')) as [<-|Hne'].
    + rewrite lookup_insert_eq. intros [= <-]. done.
    + rewrite lookup_insert_ne by done. apply Hi.
  - intros k' Hle. rewrite lookup_insert_ne by lia. apply Hf; done.
  - intros h' k' Hin. destruct (decide (k = k')) as [<-|Hne'].
    + destruct (Ht _ _ Hin) as (t' & E' & I'). congruence.
    + rewrite lookup_insert_ne by done. apply Ht; done.
  - intros k' t'. destruct (decide (k = k')) as [<-|Hne'].
    + rewrite lookup_insert_eq. intros [= <-]. done.
    + rewrite lookup_insert_ne by done. apply Hi.
  - intros k' Hle. rewrite lookup_insert_ne by lia. apply Hf; done.
Qed.

#[export] Hint Resolve wf_checkProgress wf_invoke wf_stop : world_db.

Lemma wf_start k w : wf w -> wf (start k w).
Proof.
  intros Hw; unfold start.
  destruct (trackers w !! k) as [t|] eqn:Ek; [|done].
  destruct (isTracking t) eqn:Etr; [done|].
  destruct Hw as [Ht Hi Hf].
  assert (Hnone : interval t = None) by (eapply Hi; eauto).
  assert (Hk : k < next_obj w).
  { destruct (decide (k < next_obj w)); [done|]. rewrite Hf in Ek; [done|lia]. }
  assert (Hno : forall h, (h, k) ∉ timers w).
  { intros h Hin. destruct (Ht _ _ Hin) as (t' & E' & I'). congruence. }
  unfold checkProgress; simpl. rewrite lookup_insert_eq; simpl.
  rewrite lookup_insert_eq.
  constructor; simpl.
  - intros h' k' Hin. apply elem_of_app in Hin as [Hin|Hin].
    + destruct (decide (k = k')) as [<-|Hne']; [exfalso; eapply Hno; eauto|].
      rewrite !lookup_insert_ne by done. apply Ht; done.
    + apply list_elem_of_singleton in Hin; injection Hin as -> ->.
      rewrite lookup_insert_eq. eauto.
  - intros k' t'. destruct (decide (k = k')) as [<-|Hne'].
    + rewrite lookup_insert_eq. intros [= <-]. done.
    + rewrite !lookup_insert_ne by done. apply Hi.
  - intros k' Hle. rewrite !lookup_insert_ne by lia. apply Hf; done.
Qed.

#[export] Hint Resolve wf_start : world_db.

Lemma wf_exec_actions k acts w : wf w -> wf (exec_actions k acts w).
Proof.
  unfold exec_actions. revert w; induction acts as [|a acts IH]; intros w Hw; simpl; [done|].
  apply IH. destruct a; simpl; auto with world_db.
Qed.

Lemma wf_settle n r w : wf w -> wf (settle n r w).
Proof.
  intros Hw; unfold settle. destruct (take_call n (inflight w)) as [[k rest]|]; [|done].
  apply wf_exec_actions; auto with world_db.
Qed.

Lemma wf_tick h w : wf w -> wf (tick h w).
Proof.
  intros Hw; unfold tick. destruct (find _ (timers w)) as [[? k]|]; auto with world_db.
Qed.

Lemma wf_alloc d w :
  wf w -> wf (set_next_obj (S (next_obj w)) (set_trackers (<[next_obj w := new_tracker d]> (trackers w)) w)).
Proof.
  intros [Ht Hi Hf]; constructor; simpl.
  - intros h k Hin. destruct (decide (next_obj w = k)) as [<-|Hne].
    + destruct (Ht _ _ Hin) as (t' & E' & _). rewrite Hf in E'; [done|lia].
    + rewrite lookup_insert_ne by done. apply Ht; done.
  - intros k t. destruct (decide (next_obj w = k)) as [<-|Hne].
    + rewrite lookup_insert_eq. intros [= <-]. done.
    + rewrite lookup_insert_ne by done. apply Hi.
  - intros k Hle. rewrite lookup_insert_ne by lia. apply Hf; lia.
Qed.

Lemma wf_trackProgress w : wf w -> wf (trackProgress w).
Proof.
  intros Hw; unfold trackProgress.
  set (w1 := match progressTracker w with Some k => stop k w | None => w end).
  assert (H1 : wf w1) by (subst w1; destruct (progressTracker w); auto with world_db).
  apply wf_start, wf_set_progressTracker, wf_alloc; done.
Qed.

#[export] Hint Resolve wf_exec_actions wf_settle wf_tick wf_trackProgress : world_db.

Lemma wf_step w e : wf w -> wf (step w e).
Proof.
  intros Hw; destruct e; simpl; unfold dispatch_ok; auto with world_db.
Qed.

Lemma wf_run w evs : wf w -> wf (run w evs).
Proof.
  unfold run; revert w; induction evs as [|e evs IH]; intros w Hw; simpl; auto using wf_step.
Qed.

Lemma wf_w_tracker d : wf (w_tracker d).
Proof.
  constructor; simpl.
  - intros h k Hin. apply elem_of_nil in Hin as [].
  - intros k t. rewrite lookup_singleton_Some. intros [<- <-]. done.
  - intros k Hle. apply lookup_singleton_None. lia.
Qed.

Lemma wf_w_app : wf w_app.
Proof.
  constructor; simpl.
  - intros h k Hin. apply elem_of_nil in Hin as [].
  - intros k t. rewrite lookup_empty. done.
  - intros k _. apply lookup_empty.
Qed.

(* ------------------------------------------------------------------ *)
(** ** Log bookkeeping and the shape of each operation *)

Definition entry_owner (e : entry) : nat :=
  match e with
  | E_poll k _ _ | E_stopped k | E_callback k _ _ _ _ => k
  end.

Definition is_poll (e : entry) : bool :=
  match e with E_poll _ _ _ => true | _ => false end.

Definition is_callback (e : entry) : bool :=
  match e with E_callback _ _ _ _ _ => true | _ => false end.

Definition is_terminal (e : entry) : bool :=
  match e with
  | E_callback _ (CB_complete _) _ _ _ | E_callback _ (CB_error _) _ _ _ => true
  | _ => false
  end.

Definition of_tracker (k : nat) (f : entry -> bool) (e : entry) : bool :=
  Nat.eqb (entry_owner e) k && f e.

Fixpoint count_if (f : entry -> bool) (l : list entry) : nat :=
  match l with
  | [] => 0
  | e :: l' => (if f e then 1 else 0) + count_if f l'
  end.

(** Number of outstanding getStatus calls owned by tracker [k]. *)
Fixpoint count_calls (k : nat) (l : list (nat * nat)) : nat :=
  match l with
  | [] => 0
  | (_, j) :: l' => (if Nat.eqb j k then 1 else 0) + count_calls k l'
  end.

Definition no_timer (k : nat) (w : world) : Prop := forall h, (h, k) ∉ timers w.

Definition idle_at (k : nat) (w : world) : Prop :=
  exists t, trackers w !! k = Some t /\ interval t = None.

Lemma count_if_app f l1 l2 : count_if f (l1 ++ l2) = count_if f l1 + count_if f l2.
Proof. induction l1 as [|e l1 IH]; simpl; [done|]. rewrite IH; lia. Qed.

Lemma count_calls_app k l1 l2 : count_calls k (l1 ++ l2) = count_calls k l1 + count_calls k l2.
Proof. induction l1 as [|[m j] l1 IH]; simpl; [done|]. rewrite IH; lia. Qed.

Lemma count_if_owned f j k l :
  j <> k -> Forall (fun e => entry_owner e = j) l -> count_if (of_tracker k f) l = 0.
Proof.
  intros Hne HF; induction HF as [|e l He _ IH]; simpl; [done|].
  unfold of_tracker; rewrite He. destruct (Nat.eqb_spec j k); [done|]. simpl; done.
Qed.

Lemma take_call_count n l j rest k :
  take_call n l = Some (j, rest) ->
  count_calls k l = count_calls k rest + (if Nat.eqb j k then 1 else 0).
Proof.
  revert rest; induction l as [|[m i] l IH]; intros rest; simpl; [done|].
  destruct (Nat.eqb m n).
  - intros [= -> ->]; lia.
  - destruct (take_call n l) as [[j' r]|] eqn:E; [|done].
    intros [= -> <-]; simpl. rewrite (IH r eq_refl); lia.
Qed.

Lemma take_call_in n l j rest : take_call n l = Some (j, rest) -> (n, j) ∈ l.
Proof.
  revert rest; induction l as [|[m i] l IH]; intros rest; simpl; [done|].
  destruct (Nat.eqb_spec m n) as [->|].
  - intros [= -> ->]; constructor.
  - destruct (take_call n l) as [[j' r]|] eqn:E; [|done].
    intros [= -> <-]; constructor; eapply IH; eauto.
Qed.

Lemma wf_no_timer k w : wf w -> idle_at k w -> no_timer k w.
Proof.
  intros Hw (t & Et & It) h Hin. destruct (ok_timers _ _ _ Hw _ _ Hin) as (t' & E' & I').
  congruence.
Qed.

Lemma stop_cases j w :
  (trackers w !! j = None /\ stop j w = w) \/
  exists t, trackers w !! j = Some t /\
    stop j w = mkWorld (<[j := mkTracker (downloadId t) None false]> (trackers w)) (next_obj w)
                 (match interval t with Some h => clearInterval h (timers w) | None => timers w end)
                 (next_timer w) (inflight w) (next_poll w) (progressTracker w)
                 (currentDownloadId w) (shown w) (log w).
Proof.
  unfold stop. destruct (trackers w !! j) as [t|]; [right|left; done].
  exists t; split; [done|]. destruct (interval t); reflexivity.
Qed.

Lemma start_cases j w :
  start j w = w \/
  exists t, trackers w !! j = Some t /\ isTracking t = false /\
    start j w = mkWorld
      (<[j := mkTracker (downloadId t) (Some (next_timer w)) true]>
        (<[j := mkTracker (downloadId t) (interval t) true]> (trackers w)))
      (next_obj w) (timers w ++ [(next_timer w, j)]) (Pos.succ (next_timer w))
      (inflight w ++ [(next_poll w, j)]) (S (next_poll w)) (progressTracker w)
      (currentDownloadId w) (shown w) (log w ++ [E_poll j (downloadId t) (next_poll w)]).
Proof.
  unfold start. destruct (trackers w !! j) as [t|] eqn:Ej; [|left; done].
  destruct (isTracking t) eqn:Etr; [left; done|right].
  exists t; split; [done|split; [done|]].
  unfold checkProgress; simpl. rewrite lookup_insert_eq; simpl. rewrite lookup_insert_eq.
  reflexivity.
Qed.

Lemma checkProgress_cases j w :
  (trackers w !! j = None /\ checkProgress j w = w) \/
  exists t, trackers w !! j = Some t /\
    checkProgress j w = mkWorld (trackers w) (next_obj w) (timers w) (next_timer w)
      (inflight w ++ [(next_poll w, j)]) (S (next_poll w)) (progressTracker w)
      (currentDownloadId w) (shown w) (log w ++ [E_poll j (downloadId t) (next_poll w)]).
Proof.
  unfold checkProgress. destruct (trackers w !! j) as [t|]; [right|left; done].
  exists t; done.
Qed.

Lemma invoke_cases j c w :
  (trackers w !! j = None /\ invoke j c w = w) \/
  exists t s, trackers w !! j = Some t /\
    invoke j c w = mkWorld (trackers w) (next_obj w) (timers w) (next_timer w)
      (inflight w) (next_poll w) (progressTracker w) (currentDownloadId w) s
      (log w ++ [E_callback j c (interval t) (isTracking t) (has_timer j (timers w))]).
Proof.
  unfold invoke. destruct (trackers w !! j) as [t|]; [right|left; done].
  exists t. destruct c; eexists; split; done.
Qed.

Definition n_invokes (acts : list action) : nat :=
  length (List.filter (fun a => match a with A_stop => false | _ => true end) acts).

Lemma n_invokes_settled r : n_invokes (checkProgress_settled r) = 1.
Proof.
  destruct r as [p|m]; simpl; [|done].
  destruct (String.eqb (status p) "completed"); [done|].
  destruct (String.eqb (status p) "error"); done.
Qed.

Lemma stop_frame j w :
  log (stop j w) = log w /\ inflight (stop j w) = inflight w /\ next_obj (stop j w) = next_obj w /\
  (forall i, i <> j -> trackers (stop j w) !! i = trackers w !! i) /\
  (forall x, x ∈ timers (stop j w) -> x ∈ timers w).
Proof.
  destruct (stop_cases j w) as [[_ ->]|(t & _ & ->)]; [done|simpl].
  split; [done|split; [done|split; [done|split]]].
  - intros i Hi; apply lookup_insert_ne; done.
  - intros x Hx. destruct (interval t); [|done].
    apply list_elem_of_filter in Hx; tauto.
Qed.

Lemma stop_idle k j w : idle_at k w -> idle_at k (stop j w).
Proof.
  intros (t & Et & It). destruct (decide (j = k)) as [<-|Hne].
  - destruct (stop_cases j w) as [[E _]|(t' & E & ->)]; [congruence|].
    eexists; split; [simpl; apply lookup_insert_eq|done].
  - exists t; split; [|done]. destruct (stop_frame j w) as (_ & _ & _ & Hl & _).
    rewrite Hl; done.
Qed.

Lemma has_timer_false k ts : has_timer k ts = false <-> forall h, (h, k) ∉ ts.
Proof.
  unfold has_timer. rewrite <- not_true_iff_false, existsb_exists. split.
  - intros H h Hin. apply H. exists (h, k). rewrite <- list_elem_of_In.
    split; [done|]. apply Nat.eqb_refl.
  - intros H ([h j] & Hin & Hj). simpl in Hj. apply Nat.eqb_eq in Hj as ->.
    apply (H h). apply list_elem_of_In; done.
Qed.

Lemma no_timer_stop_self j w : wf w -> no_timer j (stop j w).
Proof.
  intros Hw h Hin.
  destruct (stop_cases j w) as [[E Hs]|(t & E & Hs)]; rewrite Hs in Hin.
  - destruct (ok_timers _ _ _ Hw _ _ Hin) as (t' & E' & _). congruence.
  - simpl in Hin.
    destruct (interval t) as [h0|] eqn:Ei.
    + apply list_elem_of_filter in Hin as [Hne Hin]; simpl in Hne.
      destruct (ok_timers _ _ _ Hw _ _ Hin) as (t' & E' & I'). congruence.
    + destruct (ok_timers _ _ _ Hw _ _ Hin) as (t' & E' & I'). congruence.
Qed.

Lemma exec_actions_frame j acts w :
  exists l, log (exec_actions j acts w) = log w ++ l /\
    Forall (fun e => entry_owner e = j /\ is_poll e = false) l /\
    count_if is_callback l <= n_invokes acts /\
    inflight (exec_actions j acts w) = inflight w /\
    next_obj (exec_actions j acts w) = next_obj w /\
    (forall i, i <> j -> trackers (exec_actions j acts w) !! i = trackers w !! i) /\
    (forall x, x ∈ timers (exec_actions j acts w) -> x ∈ timers w).
Proof.
  unfold exec_actions, n_invokes. revert w; induction acts as [|a acts IH]; intros w; simpl.
  { exists []. rewrite app_nil_r. repeat split; auto. }
  assert (Ha : exists l0, log (exec_action j w a) = log w ++ l0 /\
     Forall (fun e => entry_owner e = j /\ is_poll e = false) l0 /\
     count_if is_callback l0 <= (match a with A_stop => 0 | _ => 1 end) /\
     inflight (exec_action j w a) = inflight w /\
     next_obj (exec_action j w a) = next_obj w /\
     (forall i, i <> j -> trackers (exec_action j w a) !! i = trackers w !! i) /\
     (forall x, x ∈ timers (exec_action j w a) -> x ∈ timers w)).
  { destruct a as [|p|p|m]; simpl.
    - exists []; rewrite app_nil_r.
      destruct (stop_frame j w) as (? & ? & ? & ? & ?); repeat split; simpl; auto.
    - destruct (invoke_cases j (CB_update p) w) as [[_ ->]|(t & s & _ & ->)].
      + exists []; rewrite app_nil_r; repeat split; auto.
      + exists [E_callback j (CB_update p) (interval t) (isTracking t) (has_timer j (timers w))].
        simpl; repeat split; auto.
    - destruct (invoke_cases j (CB_complete p) w) as [[_ ->]|(t & s & _ & ->)].
      + exists []; rewrite app_nil_r; repeat split; auto.
      + exists [E_callback j (CB_complete p) (interval t) (isTracking t) (has_timer j (timers w))].
        simpl; repeat split; auto.
    - destruct (invoke_cases j (CB_error m) w) as [[_ ->]|(t & s & _ & ->)].
      + exists []; rewrite app_nil_r; repeat split; auto.
      + exists [E_callback j (CB_error m) (interval t) (isTracking t) (has_timer j (timers w))].
        simpl; repeat split; auto. }
  destruct Ha as (l0 & L0 & F0 & C0 & I0 & O0 & T0 & M0).
  destruct (IH (exec_action j w a)) as (l1 & L1 & F1 & C1 & I1 & O1 & T1 & M1).
  exists (l0 ++ l1). rewrite L1, L0, app_assoc. split; [done|].
  split; [apply Forall_app; done|].
  split; [rewrite count_if_app; destruct a; simpl in *; lia|].
  split; [congruence|]. split; [congruence|].
  split; [intros i Hi; rewrite T1, T0 by done; done|].
  intros x Hx; apply M0, M1; done.
Qed.

Lemma exec_actions_idle k j acts w : idle_at k w -> idle_at k (exec_actions j acts w).
Proof.
  unfold exec_actions. revert w; induction acts as [|a acts IH]; intros w Hk; simpl; [done|].
  apply IH. destruct a as [|p|p|m]; simpl; [apply stop_idle; done| | |];
  [destruct (invoke_cases j (CB_update p) w) as [[_ ->]|(t & s & _ & ->)]
  |destruct (invoke_cases j (CB_complete p) w) as [[_ ->]|(t & s & _ & ->)]
  |destruct (invoke_cases j (CB_error m) w) as [[_ ->]|(t & s & _ & ->)]]; done.
Qed.

Lemma owned_counts j k l :
  Forall (fun e => entry_owner e = j /\ is_poll e = false) l ->
  count_if (of_tracker k is_poll) l = 0 /\
  count_if (of_tracker k is_callback) l <= (if Nat.eqb j k then count_if is_callback l else 0).
Proof.
  intros HF; induction HF as [|e l [Ho Hp] _ [IH1 IH2]]; simpl; [lia|].
  unfold of_tracker at 1 3; rewrite Ho, Hp, andb_false_r. simpl.
  split; [done|]. destruct (Nat.eqb_spec j k), (is_callback e); simpl; lia.
Qed.

Lemma start_frame j k w :
  j <> k ->
  exists l, log (start j w) = log w ++ l /\
    count_if (of_tracker k is_poll) l = 0 /\ count_if (of_tracker k is_callback) l = 0 /\
    count_calls k (inflight (start j w)) = count_calls k (inflight w) /\
    next_obj (start j w) = next_obj w /\
    (forall i, i <> j -> trackers (start j w) !! i = trackers w !! i).
Proof.
  intros Hne. destruct (start_cases j w) as [->|(t & _ & _ & ->)].
  - exists []; rewrite app_nil_r; repeat split; auto.
  - exists [E_poll j (downloadId t) (next_poll w)]; simpl.
    apply Nat.eqb_neq in Hne. unfold of_tracker; simpl; rewrite Hne; simpl.
    rewrite count_calls_app; simpl; rewrite Hne.
    repeat split; [lia|]. intros i Hi; rewrite !lookup_insert_ne by done; done.
Qed.

Lemma checkProgress_frame j k w :
  j <> k ->
  exists l, log (checkProgress j w) = log w ++ l /\
    count_if (of_tracker k is_poll) l = 0 /\ count_if (of_tracker k is_callback) l = 0 /\
    count_calls k (inflight (checkProgress j w)) = count_calls k (inflight w) /\
    trackers (checkProgress j w) = trackers w.
Proof.
  intros Hne. destruct (checkProgress_cases j w) as [[_ ->]|(t & _ & ->)].
  - exists []; rewrite app_nil_r; repeat split; auto.
  - exists [E_poll j (downloadId t) (next_poll w)]; simpl.
    apply Nat.eqb_neq in Hne. unfold of_tracker; simpl; rewrite Hne; simpl.
    rewrite count_calls_app; simpl; rewrite Hne.
    repeat split; lia.
Qed.

(** A tracker without a live interval stays quiet. *)
Definition quiet (k : nat) (w : world) : Prop := wf w /\ idle_at k w.

Lemma idle_lt k w : wf w -> idle_at k w -> k < next_obj w.
Proof.
  intros Hw (t & Et & _). destruct (decide (k < next_obj w)); [done|].
  rewrite (ok_fresh _ _ _ Hw) in Et; [done|lia].
Qed.

Lemma quiet_step k w e :
  quiet k w -> e <> Start k ->
  exists l, log (step w e) = log w ++ l /\
    count_if (of_tracker k is_poll) l = 0 /\
    count_if (of_tracker k is_callback) l + count_calls k (inflight (step w e))
      <= count_calls k (inflight w) /\
    quiet k (step w e).
Proof.
  intros [Hw Hk] He. assert (Hwf : wf (step w e)) by (apply wf_step; done).
  destruct e as [j|j|h|n r|d|m|m|]; simpl in *.
  - (* Start j *)
    assert (Hne : j <> k) by congruence.
    destruct (start_frame j k w Hne) as (l & L & P & C & I & _ & T).
    exists l; split; [done|split; [done|split; [lia|split; [done|]]]].
    destruct Hk as (t & Et & It); exists t; rewrite T by congruence; done.
  - (* Stop j *)
    exists [E_stopped j]; simpl.
    destruct (stop_frame j w) as (L & I & _ & _ & _). rewrite L, I.
    unfold of_tracker; simpl; rewrite !andb_false_r.
    split; [done|split; [done|split; [lia|split; [done|]]]].
    apply (stop_idle k j w); done.
  - (* Tick h *)
    unfold tick in *. destruct (find _ (timers w)) as [[h' j]|] eqn:Ef.
    + apply find_some in Ef as [Hin _]. apply list_elem_of_In in Hin.
      assert (Hne : j <> k).
      { intros ->. apply (wf_no_timer k w Hw Hk h' Hin). }
      destruct (checkProgress_frame j k w Hne) as (l & L & P & C & I & T).
      exists l; split; [done|split; [done|split; [lia|split; [done|]]]].
      destruct Hk as (t & Et & It); exists t; rewrite T; done.
    + exists []; rewrite app_nil_r; simpl; split; [done|split; [done|split; [lia|split; done]]].
  - (* Settle n r *)
    unfold settle in *. destruct (take_call n (inflight w)) as [[j rest]|] eqn:Et.
    + destruct (exec_actions_frame j (checkProgress_settled r) (set_inflight rest w))
        as (l & L & F & C & I & _ & _ & _).
      destruct (owned_counts j k l F) as [P Cb].
      rewrite n_invokes_settled in C.
      exists l; split; [done|split; [done|split]].
      * rewrite I; simpl. rewrite (take_call_count n (inflight w) j rest k Et).
        destruct (Nat.eqb j k); lia.
      * split; [done|]. apply exec_actions_idle. done.
    + exists []; rewrite app_nil_r; simpl; split; [done|split; [done|split; [lia|split; done]]].
  - (* DispatchOk d *)
    unfold dispatch_ok, trackProgress in *.
    set (w0 := set_shown (Some S_progress) (set_currentDownloadId (Some d) w)) in *.
    assert (Hk0 : idle_at k w0) by done.
    set (w1 := match progressTracker w0 with Some j => stop j w0 | None => w0 end) in *.
    assert (Hk1 : idle_at k w1 /\ log w1 = log w /\ inflight w1 = inflight w /\ next_obj w1 = next_obj w).
    { subst w1; destruct (progressTracker w0) as [j|]; [|done].
      destruct (stop_frame j w0) as (L & I & O & _ & _).
      split; [apply stop_idle; done|]. rewrite L, I, O; done. }
    destruct Hk1 as (Hk1 & L1 & I1 & O1).
    assert (Hlt : k < next_obj w) by (apply idle_lt; done).
    assert (Hne : next_obj w1 <> k) by lia.
    destruct (start_frame (next_obj w1) k
      (set_progressTracker (Some (next_obj w1))
        (set_next_obj (S (next_obj w1)) (set_trackers (<[next_obj w1 := new_tracker
          match currentDownloadId w1 with Some d0 => d0 | None => ""%string end]> (trackers w1)) w1))) Hne)
      as (l & L & P & C & I & _ & T).
    exists l; rewrite L; simpl; rewrite L1.
    split; [done|split; [done|split]].
    * rewrite I; simpl; rewrite I1; lia.
    * split; [done|]. destruct Hk1 as (t & Et & It); exists t.
      rewrite T by done; simpl. rewrite lookup_insert_ne by done. done.
  - exists []; rewrite app_nil_r; simpl; split; [done|split; [done|split; [lia|split; done]]].
  - exists []; rewrite app_nil_r; simpl; split; [done|split; [done|split; [lia|split; done]]].
  - exists []; rewrite app_nil_r; simpl; split; [done|split; [done|split; [lia|split; done]]].
Qed.

Lemma quiet_run k w evs :
  quiet k w -> Forall (fun e => e <> Start k) evs ->
  exists l, log (run w evs) = log w ++ l /\
    count_if (of_tracker k is_poll) l = 0 /\
    count_if (of_tracker k is_callback) l + count_calls k (inflight (run w evs))
      <= count_calls k (inflight w) /\
    quiet k (run w evs).
Proof.
  unfold run. intros Hq HF; revert w Hq; induction HF as [|e evs He _ IH]; intros w Hq; simpl.
  - exists []; rewrite app_nil_r; simpl; split; [done|split; [done|split; [lia|done]]].
  - destruct (quiet_step k w e Hq He) as (l0 & L0 & P0 & C0 & Q0).
    destruct (IH (step w e) Q0) as (l1 & L1 & P1 & C1 & Q1).
    exists (l0 ++ l1). rewrite L1, L0, app_assoc, !count_if_app.
    split; [done|split; [lia|split; [lia|done]]].
Qed.

(** Tracker objects are never freed and their [downloadId] never changes. *)
Definition keeps (w w' : world) : Prop :=
  forall i t, trackers w !! i = Some t ->
  exists t', trackers w' !! i = Some t' /\ downloadId t' = downloadId t.

Lemma keeps_refl w : keeps w w.
Proof. intros i t E; eauto. Qed.

Lemma keeps_trans w1 w2 w3 : keeps w1 w2 -> keeps w2 w3 -> keeps w1 w3.
Proof.
  intros H12 H23 i t E. destruct (H12 i t E) as (t2 & E2 & D2).
  destruct (H23 i t2 E2) as (t3 & E3 & D3). exists t3; split; congruence.
Qed.

Lemma keeps_same_trackers w w' : trackers w' = trackers w -> keeps w w'.
Proof. intros Ht i t E; exists t; rewrite Ht; done. Qed.

Lemma keeps_stop j w : keeps w (stop j w).
Proof.
  destruct (stop_cases j w) as [[_ ->]|(tj & Ej & ->)]; [apply keeps_refl|].
  intros i t E; simpl. destruct (decide (j = i)) as [<-|Hne].
  - rewrite lookup_insert_eq. eexists; split; [done|simpl; congruence].
  - rewrite lookup_insert_ne by done. eauto.
Qed.

Lemma keeps_start j w : keeps w (start j w).
Proof.
  destruct (start_cases j w) as [->|(tj & Ej & _ & ->)]; [apply keeps_refl|].
  intros i t E; simpl. destruct (decide (j = i)) as [<-|Hne].
  - rewrite lookup_insert_eq. eexists; split; [done|simpl; congruence].
  - rewrite !lookup_insert_ne by done. eauto.
Qed.

Lemma keeps_checkProgress j w : keeps w (checkProgress j w).
Proof.
  destruct (checkProgress_cases j w) as [[_ ->]|(tj & _ & ->)]; [apply keeps_refl|].
  apply keeps_same_trackers; done.
Qed.

Lemma keeps_invoke j c w : keeps w (invoke j c w).
Proof.
  destruct (invoke_cases j c w) as [[_ ->]|(tj & s & _ & ->)]; [apply keeps_refl|].
  apply keeps_same_trackers; done.
Qed.

Lemma keeps_exec_actions j acts w : keeps w (exec_actions j acts w).
Proof.
  unfold exec_actions. revert w; induction acts as [|a acts IH]; intros w; simpl; [apply keeps_refl|].
  eapply keeps_trans; [|apply IH].
  destruct a; simpl; [apply keeps_stop|apply keeps_invoke..].
Qed.

Lemma keeps_step w e : wf w -> keeps w (step w e).
Proof.
  intros Hw. destruct e as [j|j|h|n r|d|m|m|]; simpl.
  - apply keeps_start.
  - apply (keeps_trans _ (stop j w)); [apply keeps_stop|apply keeps_same_trackers; done].
  - unfold tick. destruct (find _ _) as [[? j]|]; [apply keeps_checkProgress|apply keeps_refl].
  - unfold settle. destruct (take_call n (inflight w)) as [[j rest]|]; [|apply keeps_refl].
    apply (keeps_trans _ (set_inflight rest w)); [apply keeps_same_trackers; done|apply keeps_exec_actions].
  - unfold dispatch_ok, trackProgress.
    set (w0 := set_shown (Some S_progress) (set_currentDownloadId (Some d) w)).
    assert (Hw0 : wf w0) by (subst w0; auto with world_db).
    set (w1 := match progressTracker w0 with Some j => stop j w0 | None => w0 end).
    assert (K1 : keeps w w1 /\ wf w1).
    { subst w1; destruct (progressTracker w0) as [j|].
      - split; [|auto with world_db].
        apply (keeps_trans _ w0); [apply keeps_same_trackers; done|apply keeps_stop].
      - split; [apply keeps_same_trackers; done|done]. }
    destruct K1 as [K1 Hw1].
    eapply keeps_trans; [exact K1|]. eapply keeps_trans; [|apply keeps_start].
    intros i t E; simpl. destruct (decide (next_obj w1 = i)) as [<-|Hne].
    + rewrite (ok_fresh _ _ _ Hw1) in E; [done|lia].
    + rewrite lookup_insert_ne by done. eauto.
  - apply keeps_same_trackers; done.
  - apply keeps_same_trackers; done.
  - apply keeps_same_trackers; done.
Qed.

Lemma keeps_run w evs : wf w -> keeps w (run w evs).
Proof.
  unfold run; revert w; induction evs as [|e evs IH]; intros w Hw; simpl; [apply keeps_refl|].
  eapply keeps_trans; [apply keeps_step; done|apply IH; apply wf_step; done].
Qed.

(** What each kind of log entry guarantees about the moment it was made. *)
Definition snapshot_ok (e : entry) : Prop :=
  match e with
  | E_callback _ (CB_complete _) iv tr live
  | E_callback _ (CB_error _) iv tr live => iv = None /\ tr = false /\ live = false
  | _ => True
  end.

Definition entry_good (w : world) (e : entry) : Prop :=
  match e with
  | E_poll j id _ =>
      (exists t, trackers w !! j = Some t /\ downloadId t = id) \/ next_obj w <= j
  | _ => snapshot_ok e
  end.

Lemma invoke_after_stop j c w :
  wf w ->
  exists l, log (invoke j c (stop j w)) = log w ++ l /\
    Forall (fun e => e = E_callback j c None false false) l /\
    (is_Some (trackers w !! j) -> idle_at j (invoke j c (stop j w))).
Proof.
  intros Hw. pose proof (no_timer_stop_self j w Hw) as Hnt.
  destruct (stop_cases j w) as [[Ej Hs]|(t & Ej & Hs)]; rewrite Hs in *.
  - destruct (invoke_cases j c w) as [[_ ->]|(t' & s & E' & _)]; [|congruence].
    exists []; rewrite app_nil_r; split; [done|split; [done|]].
    rewrite Ej; intros [? ?]; done.
  - set (W := mkWorld _ _ _ _ _ _ _ _ _ _) in *.
    assert (EW : trackers W !! j = Some (mkTracker (downloadId t) None false))
      by (subst W; simpl; apply lookup_insert_eq).
    destruct (invoke_cases j c W) as [[E _]|(t' & s & E' & ->)]; [congruence|].
    rewrite EW in E'; injection E' as <-.
    assert (Hh : has_timer j (timers W) = false) by (apply has_timer_false; done).
    rewrite Hh. simpl. eexists; split; [done|split; [repeat constructor|]].
    intros _. exists (mkTracker (downloadId t) None false); split; [|done].
    simpl; subst W; simpl; apply lookup_insert_eq.
Qed.

Lemma exec_settled j r w :
  (exists p, exec_actions j (checkProgress_settled r) w = invoke j (CB_update p) w) \/
  (exists c, is_terminal (E_callback j c None false false) = true /\
     exec_actions j (checkProgress_settled r) w = invoke j c (stop j w)).
Proof.
  destruct r as [p|m]; simpl.
  - destruct (String.eqb (status p) "completed"); [right; exists (CB_complete p); split; reflexivity|].
    destruct (String.eqb (status p) "error").
    + right; exists (CB_error (or_default (error p) "Download failed")); split; reflexivity.
    + left; eexists; reflexivity.
  - right; exists (CB_error m); split; reflexivity.
Qed.

Lemma step_shape w e :
  wf w -> exists l, log (step w e) = log w ++ l /\ Forall (entry_good w) l.
Proof.
  intros Hw. destruct e as [j|j|h|n r|d|m|m|]; simpl.
  - destruct (start_cases j w) as [->|(t & Et & _ & ->)].
    + exists []; rewrite app_nil_r; done.
    + eexists; split; [reflexivity|]. constructor; [|constructor]. simpl; left; eauto.
  - destruct (stop_frame j w) as (L & _). rewrite L. eexists; split; [reflexivity|].
    repeat constructor.
  - unfold tick. destruct (find _ _) as [[? j]|].
    + destruct (checkProgress_cases j w) as [[_ ->]|(t & Et & ->)].
      * exists []; rewrite app_nil_r; done.
      * eexists; split; [reflexivity|]. constructor; [|constructor]. simpl; left; eauto.
    + exists []; rewrite app_nil_r; done.
  - unfold settle. destruct (take_call n (inflight w)) as [[j rest]|]; [|exists []; rewrite app_nil_r; done].
    destruct (exec_settled j r (set_inflight rest w)) as [(p & ->)|(c & Hc & ->)].
    + destruct (invoke_cases j (CB_update p) (set_inflight rest w)) as [[_ ->]|(t & s & _ & ->)].
      * exists []; rewrite app_nil_r; done.
      * eexists; split; [reflexivity|]. repeat constructor.
    + destruct (invoke_after_stop j c (set_inflight rest w)) as (l & L & F & _); [auto with world_db|].
      exists l; split; [done|]. eapply Forall_impl; [exact F|].
      intros e ->. simpl. destruct c; simpl in Hc; done.
  - unfold dispatch_ok, trackProgress.
    set (w0 := set_shown (Some S_progress) (set_currentDownloadId (Some d) w)).
    set (w1 := match progressTracker w0 with Some j => stop j w0 | None => w0 end).
    assert (L1 : log w1 = log w /\ next_obj w1 = next_obj w).
    { subst w1; destruct (progressTracker w0) as [j|]; [|done].
      destruct (stop_frame j w0) as (L & _ & O & _). rewrite L, O; done. }
    destruct L1 as [L1 O1].
    set (W := set_progressTracker _ _).
    destruct (start_cases (next_obj w1) W) as [->|(t & _ & _ & ->)].
    + exists []; rewrite app_nil_r; subst W; simpl; rewrite L1; done.
    + eexists; split; [subst W; simpl; rewrite L1; reflexivity|]. constructor; [|constructor].
      simpl; right; subst W; simpl; lia.
  - exists []; rewrite app_nil_r; done.
  - exists []; rewrite app_nil_r; done.
  - exists []; rewrite app_nil_r; done.
Qed.

Lemma snapshots_run w evs :
  wf w -> Forall snapshot_ok (log w) -> Forall snapshot_ok (log (run w evs)).
Proof.
  unfold run; revert w; induction evs as [|e evs IH]; intros w Hw HF; simpl; [done|].
  apply IH; [apply wf_step; done|].
  destruct (step_shape w e Hw) as (l & -> & Hl). apply Forall_app; split; [done|].
  eapply Forall_impl; [exact Hl|]. intros [j id n| j | j c iv tr live]; simpl; done.
Qed.

(** Timer ids are issued once: each live id has one owner and lies
    below [next_timer]. *)
Definition fresh (w : world) : Prop :=
  (forall h j j', (h, j) ∈ timers w -> (h, j') ∈ timers w -> j = j') /\
  (forall h j, (h, j) ∈ timers w -> (h < next_timer w)%positive).

Lemma fresh_sub w w' :
  (forall x, x ∈ timers w' -> x ∈ timers w) -> next_timer w' = next_timer w ->
  fresh w -> fresh w'.
Proof.
  intros Hs Hn [F1 F2]; split.
  - intros h j j' H1 H2; eapply F1; apply Hs; eauto.
  - intros h j H; rewrite Hn; eapply F2; apply Hs; eauto.
Qed.

Lemma fresh_stop j w : fresh w -> fresh (stop j w).
Proof.
  apply fresh_sub; [apply stop_frame|].
  destruct (stop_cases j w) as [[_ ->]|(t & _ & ->)]; done.
Qed.

Lemma fresh_start j w : fresh w -> fresh (start j w).
Proof.
  destruct (start_cases j w) as [->|(t & _ & _ & ->)]; [done|].
  intros [F1 F2]; split; simpl.
  - intros h i i' H1 H2. apply elem_of_app in H1 as [H1|H1]; apply elem_of_app in H2 as [H2|H2].
    + eapply F1; eauto.
    + apply list_elem_of_singleton in H2; injection H2 as -> ->.
      apply F2 in H1; lia.
    + apply list_elem_of_singleton in H1; injection H1 as -> ->.
      apply F2 in H2; lia.
    + apply list_elem_of_singleton in H1, H2; congruence.
  - intros h i H. apply elem_of_app in H as [H|H].
    + apply F2 in H; lia.
    + apply list_elem_of_singleton in H; injection H as -> ->; lia.
Qed.

Lemma fresh_checkProgress j w : fresh w -> fresh (checkProgress j w).
Proof. destruct (checkProgress_cases j w) as [[_ ->]|(t & _ & ->)]; done. Qed.

Lemma fresh_invoke j c w : fresh w -> fresh (invoke j c w).
Proof. destruct (invoke_cases j c w) as [[_ ->]|(t & s & _ & ->)]; done. Qed.

Lemma fresh_exec_actions j acts w : fresh w -> fresh (exec_actions j acts w).
Proof.
  unfold exec_actions. revert w; induction acts as [|a acts IH]; intros w Hf; simpl; [done|].
  apply IH. destruct a; simpl; [apply fresh_stop|apply fresh_invoke..]; done.
Qed.

Lemma fresh_step w e : fresh w -> fresh (step w e).
Proof.
  intros Hf. destruct e as [j|j|h|n r|d|m|m|]; simpl.
  - apply fresh_start; done.
  - apply (fresh_stop j w) in Hf; done.
  - unfold tick. destruct (find _ _) as [[? j]|]; [apply fresh_checkProgress|]; done.
  - unfold settle. destruct (take_call n (inflight w)) as [[j rest]|]; [|done].
    apply fresh_exec_actions; done.
  - unfold dispatch_ok, trackProgress. apply fresh_start.
    assert (H0 : fresh (set_shown (Some S_progress) (set_currentDownloadId (Some d) w))) by done.
    destruct (progressTracker _) as [j|]; [apply (fresh_stop j) in H0|]; done.
  - done.
  - done.
  - done.
Qed.

Lemma fresh_run w evs : fresh w -> fresh (run w evs).
Proof.
  unfold run; revert w; induction evs as [|e evs IH]; intros w Hf; simpl; [done|].
  apply IH, fresh_step; done.
Qed.

Lemma fresh_w_tracker d : fresh (w_tracker d).
Proof. split; intros ? ?; [intros ? H|intros H]; apply elem_of_nil in H as []. Qed.

Lemma fresh_w_app : fresh w_app.
Proof. split; intros ? ?; [intros ? H|intros H]; apply elem_of_nil in H as []. Qed.

Lemma tick_owner h k w : fresh w -> (h, k) ∈ timers w -> tick h w = checkProgress k w.
Proof.
  intros [F1 _] Hin. unfold tick.
  destruct (find (fun p => bool_decide (p.1 = h)) (timers w)) as [[h' j]|] eqn:Ef.
  - apply find_some in Ef as [Hj Hb]. apply bool_decide_eq_true in Hb; simpl in Hb; subst h'.
    apply list_elem_of_In in Hj. rewrite (F1 h j k Hj Hin). done.
  - exfalso. apply list_elem_of_In in Hin.
    pose proof (find_none _ _ Ef _ Hin) as Hn; simpl in Hn.
    rewrite bool_decide_eq_true_2 in Hn; done.
Qed.

Ltac no_new_terminal H :=
  rewrite ?count_if_app in H; unfold of_tracker in H; simpl in H;
  rewrite ?andb_false_r in H; simpl in H; lia.

(** Only a step that stopped tracker [k] just before can add a terminal
    callback of [k] to the log. *)
Lemma terminal_step k w e :
  wf w -> is_Some (trackers w !! k) ->
  count_if (of_tracker k is_terminal) (log w) < count_if (of_tracker k is_terminal) (log (step w e)) ->
  idle_at k (step w e).
Proof.
  intros Hw Hk Hlt. destruct e as [j|j|h|n r|d|m|m|]; simpl in *.
  - exfalso. destruct (start_cases j w) as [Hs|(t & _ & _ & Hs)]; rewrite Hs in Hlt.
    + lia.
    + simpl in Hlt; no_new_terminal Hlt.
  - exfalso. destruct (stop_frame j w) as (L & _). rewrite L in Hlt. no_new_terminal Hlt.
  - exfalso. unfold tick in Hlt. destruct (find _ _) as [[? j]|]; [|lia].
    destruct (checkProgress_cases j w) as [[_ Hs]|(t & _ & Hs)]; rewrite Hs in Hlt; [lia|].
    simpl in Hlt; no_new_terminal Hlt.
  - unfold settle in *. destruct (take_call n (inflight w)) as [[j rest]|]; [|lia].
    destruct (exec_settled j r (set_inflight rest w)) as [(p & Hs)|(c & Hc & Hs)];
      rewrite Hs in *.
    + exfalso.
      destruct (invoke_cases j (CB_update p) (set_inflight rest w)) as [[_ Hi]|(t & s & _ & Hi)];
        rewrite Hi in Hlt; simpl in Hlt; [lia|]. no_new_terminal Hlt.
    + destruct (invoke_after_stop j c (set_inflight rest w)) as (l & L & F & I); [auto with world_db|].
      destruct (decide (j = k)) as [<-|Hne]; [apply I; done|].
      exfalso. rewrite L, count_if_app in Hlt.
      rewrite (count_if_owned is_terminal j k l Hne) in Hlt; [simpl in Hlt; lia|].
      eapply Forall_impl; [exact F|]. intros e ->; done.
  - exfalso. unfold dispatch_ok, trackProgress in Hlt.
    set (w0 := set_shown (Some S_progress) (set_currentDownloadId (Some d) w)) in *.
    set (w1 := match progressTracker w0 with Some j => stop j w0 | None => w0 end) in *.
    assert (L1 : log w1 = log w).
    { subst w1; destruct (progressTracker w0) as [j|]; [|done].
      destruct (stop_frame j w0) as (L & _). rewrite L; done. }
    set (W := set_progressTracker _ _) in *.
    destruct (start_cases (next_obj w1) W) as [Hs|(t & _ & _ & Hs)]; rewrite Hs in Hlt;
      subst W; simpl in Hlt; rewrite L1 in Hlt; [lia|]. no_new_terminal Hlt.
  - lia.
  - lia.
  - lia.
Qed.

Lemma w_tracker_run_0 d evs :
  exists t, trackers (run (w_tracker d) evs) !! 0 = Some t /\ downloadId t = d.
Proof.
  destruct (keeps_run (w_tracker d) evs (wf_w_tracker d) 0 (new_tracker d)) as (t & E & D).
  - simpl; apply lookup_singleton_eq.
  - exists t; done.
Qed.

Definition polls_use (k : nat) (d : string) (e : entry) : Prop :=
  match e with E_poll j id _ => j = k -> id = d | _ => True end.

Lemma polls_run d evs : Forall (polls_use 0 d) (log (run (w_tracker d) evs)).
Proof.
  assert (Gen : forall w, wf w -> (exists t, trackers w !! 0 = Some t /\ downloadId t = d) ->
                Forall (polls_use 0 d) (log w) -> Forall (polls_use 0 d) (log (run w evs))).
  { unfold run; induction evs as [|e evs IH]; intros w Hw Ht HF; simpl; [done|].
    destruct Ht as (t & Et & Dt).
    apply IH; [apply wf_step; done| |].
    - destruct (keeps_step w e Hw 0 t Et) as (t' & E' & D'). exists t'; split; congruence.
    - destruct (step_shape w e Hw) as (l & -> & Hl). apply Forall_app; split; [done|].
      eapply Forall_impl; [exact Hl|]. intros [j id n| j | j c iv tr live]; simpl; try done.
      intros [(t' & E' & D')|Hle] ->.
      + rewrite Et in E'; congruence.
      + rewrite (ok_fresh _ _ _ Hw) in Et; [done|lia]. }
  apply Gen; [apply wf_w_tracker| |done].
  exists (new_tracker d); split; [apply lookup_singleton_eq|done].
Qed.

Lemma run_snoc w evs e : run w (evs ++ [e]) = step (run w evs) e.
Proof. unfold run; rewrite fold_left_app; done. Qed.

Lemma idle_after_stop d evs : idle_at 0 (run (w_tracker d) (evs ++ [Stop 0])).
Proof.
  rewrite run_snoc; simpl. destruct (w_tracker_run_0 d evs) as (t & Et & _).
  destruct (stop_cases 0 (run (w_tracker d) evs)) as [[E _]|(t' & E & ->)]; [congruence|].
  eexists; split; [simpl; apply lookup_insert_eq|done].
Qed.

(* ------------------------------------------------------------------ *)
(** ** Claims about one ProgressTracker *)

(** After an external [stop()], no callback of the tracker is logged. *)
Definition silent_after_stop (k : nat) (l : list entry) : Prop :=
  forall l1 l2, l = l1 ++ E_stopped k :: l2 -> count_if (of_tracker k is_callback) l2 = 0.

(** C1 (as stated, refuted): a getStatus call in flight when [stop()] is
    called still delivers its callback: start, stop, then the first poll
    resolves with status downloading and onUpdate fires. *)
Lemma C1_inflight_callback_after_stop :
  ~ (forall d evs, silent_after_stop 0 (log (run (w_tracker d) evs))).
Proof.
  intros H.
  specialize (H "a"%string [Start 0; Stop 0; Settle 0 (Fulfilled p_downloading)]
    [E_poll 0 "a" 0] [E_callback 0 (CB_update p_downloading) None false false] eq_refl).
  vm_compute in H. discriminate H.
Qed.

(** C1 (amended): once [stop()] has returned, and as long as [start()]
    is not called again, the tracker issues no new getStatus call, and
    the callbacks it still invokes are at most one per call that was
    outstanding when [stop()] returned. *)
Theorem C1_stop_ends_polling d evs1 evs2 :
  Forall (fun e => e <> Start 0) evs2 ->
  exists l,
    log (run (run (w_tracker d) (evs1 ++ [Stop 0])) evs2) = log (run (w_tracker d) (evs1 ++ [Stop 0])) ++ l /\
    count_if (of_tracker 0 is_poll) l = 0 /\
    count_if (of_tracker 0 is_callback) l <= count_calls 0 (inflight (run (w_tracker d) (evs1 ++ [Stop 0]))).
Proof.
  intros HF.
  assert (Hq : quiet 0 (run (w_tracker d) (evs1 ++ [Stop 0]))).
  { split; [apply wf_run, wf_w_tracker|apply idle_after_stop]. }
  destruct (quiet_run 0 _ evs2 Hq HF) as (l & L & P & C & _).
  exists l; repeat split; [done|done|lia].
Qed.

Lemma C1_stop_ends_polling_witness :
  Forall (fun e => e <> Start 0) [Settle 0 (Fulfilled p_downloading)] /\
  exists l,
    log (run (run (w_tracker "a") ([Start 0] ++ [Stop 0])) [Settle 0 (Fulfilled p_downloading)]) =
      log (run (w_tracker "a") ([Start 0] ++ [Stop 0])) ++ l /\
    count_if (of_tracker 0 is_poll) l = 0 /\
    count_if (of_tracker 0 is_callback) l <= count_calls 0 (inflight (run (w_tracker "a") ([Start 0] ++ [Stop 0]))).
Proof.
  split; [repeat constructor; discriminate|].
  apply (C1_stop_ends_polling "a" [Start 0] [Settle 0 (Fulfilled p_downloading)]).
  repeat constructor; discriminate.
Defined.

(** C2 (as stated, refuted): the interval does not wait for the pending
    call; after [start()] and one tick two getStatus calls are
    outstanding. *)
Lemma C2_two_outstanding_calls :
  ~ (forall d evs, count_calls 0 (inflight (run (w_tracker d) evs)) <= 1).
Proof.
  intros H. specialize (H "a"%string [Start 0; Tick 1]). vm_compute in H. lia.
Qed.

(** C2 (amended): each tick of the tracker's live interval issues a new
    getStatus(downloadId) call, whatever calls are still outstanding. *)
Theorem C2_tick_polls_regardless d evs h :
  In (h, 0) (timers (run (w_tracker d) evs)) ->
  inflight (step (run (w_tracker d) evs) (Tick h)) =
    inflight (run (w_tracker d) evs) ++ [(next_poll (run (w_tracker d) evs), 0)] /\
  log (step (run (w_tracker d) evs) (Tick h)) =
    log (run (w_tracker d) evs) ++ [E_poll 0 d (next_poll (run (w_tracker d) evs))].
Proof.
  intros Hin. apply list_elem_of_In in Hin. simpl.
  rewrite (tick_owner h 0 _ (fresh_run _ evs (fresh_w_tracker d)) Hin).
  destruct (w_tracker_run_0 d evs) as (t & Et & Dt).
  destruct (checkProgress_cases 0 (run (w_tracker d) evs)) as [[E _]|(t' & E & ->)]; [congruence|].
  rewrite Et in E; injection E as <-. rewrite Dt; done.
Qed.

Lemma C2_tick_polls_regardless_witness :
  In (1%positive, 0) (timers (run (w_tracker "a") [Start 0])) /\
  inflight (step (run (w_tracker "a") [Start 0]) (Tick 1)) =
    inflight (run (w_tracker "a") [Start 0]) ++ [(next_poll (run (w_tracker "a") [Start 0]), 0)] /\
  log (step (run (w_tracker "a") [Start 0]) (Tick 1)) =
    log (run (w_tracker "a") [Start 0]) ++ [E_poll 0 "a" (next_poll (run (w_tracker "a") [Start 0]))].
Proof.
  split; [simpl; left; reflexivity|].
  apply (C2_tick_polls_regardless "a" [Start 0] 1). simpl; left; reflexivity.
Defined.

(** C3 (as stated, refuted): two polls outstanding that both resolve
    with status completed invoke onComplete twice. *)
Lemma C3_two_terminal_callbacks :
  ~ (forall d evs, count_if (of_tracker 0 is_terminal) (log (run (w_tracker d) evs)) <= 1).
Proof.
  intros H.
  specialize (H "a"%string [Start 0; Tick 1; Settle 0 (Fulfilled p_completed); Settle 1 (Fulfilled p_completed)]).
  vm_compute in H. lia.
Qed.

(** C3 (amended): the step that invokes a terminal callback leaves the
    tracker with no live interval; from then on, as long as [start()]
    is not called again, it issues no new getStatus call and invokes at
    most one further callback per call that was already outstanding. *)
Theorem C3_terminal_stops_polling d evs1 e evs2 :
  count_if (of_tracker 0 is_terminal) (log (run (w_tracker d) evs1)) <
    count_if (of_tracker 0 is_terminal) (log (run (w_tracker d) (evs1 ++ [e]))) ->
  Forall (fun e' => e' <> Start 0) evs2 ->
  no_timer 0 (run (w_tracker d) (evs1 ++ [e])) /\
  exists l,
    log (run (run (w_tracker d) (evs1 ++ [e])) evs2) = log (run (w_tracker d) (evs1 ++ [e])) ++ l /\
    count_if (of_tracker 0 is_poll) l = 0 /\
    count_if (of_tracker 0 is_callback) l <= count_calls 0 (inflight (run (w_tracker d) (evs1 ++ [e]))).
Proof.
  intros Hlt HF. rewrite run_snoc in *.
  assert (Hw : wf (run (w_tracker d) evs1)) by (apply wf_run, wf_w_tracker).
  assert (Hi : idle_at 0 (step (run (w_tracker d) evs1) e)).
  { apply terminal_step; [done| |done].
    destruct (w_tracker_run_0 d evs1) as (t & Et & _). rewrite Et; eauto. }
  assert (Hq : quiet 0 (step (run (w_tracker d) evs1) e)) by (split; [apply wf_step|]; done).
  split; [apply wf_no_timer; [apply wf_step|]; done|].
  destruct (quiet_run 0 _ evs2 Hq HF) as (l & L & P & C & _).
  exists l; repeat split; [done|done|lia].
Qed.

Lemma C3_terminal_stops_polling_witness :
  count_if (of_tracker 0 is_terminal) (log (run (w_tracker "a") [Start 0])) <
    count_if (of_tracker 0 is_terminal)
      (log (run (w_tracker "a") ([Start 0] ++ [Settle 0 (Fulfilled p_completed)]))) /\
  no_timer 0 (run (w_tracker "a") ([Start 0] ++ [Settle 0 (Fulfilled p_completed)])) /\
  exists l,
    log (run (run (w_tracker "a") ([Start 0] ++ [Settle 0 (Fulfilled p_completed)])) []) =
      log (run (w_tracker "a") ([Start 0] ++ [Settle 0 (Fulfilled p_completed)])) ++ l /\
    count_if (of_tracker 0 is_poll) l = 0 /\
    count_if (of_tracker 0 is_callback) l <=
      count_calls 0 (inflight (run (w_tracker "a") ([Start 0] ++ [Settle 0 (Fulfilled p_completed)]))).
Proof.
  split; [vm_compute; lia|].
  apply (C3_terminal_stops_polling "a" [Start 0] (Settle 0 (Fulfilled p_completed)) []).
  - vm_compute; lia.
  - constructor.
Defined.

(** C5: a poll call of the tracker was issued as getStatus(downloadId);
    when it settles, status completed stops the tracker and then invokes
    onComplete with the report; status error stops it and then invokes
    onError with the report's error text, or Download failed when that
    is missing or empty; any other status invokes onUpdate with the raw
    report and leaves the timers as they were; a rejected call stops the
    tracker and then invokes onError with the rejection message. *)
Theorem C5_poll_cycle d evs n rest r :
  take_call n (inflight (run (w_tracker d) evs)) = Some (0, rest) ->
  Forall (polls_use 0 d) (log (run (w_tracker d) evs)) /\
  inflight (step (run (w_tracker d) evs) (Settle n r)) = rest /\
  let w := run (w_tracker d) evs in
  let w' := step w (Settle n r) in
  match r with
  | Fulfilled p =>
      if String.eqb (status p) "completed" then
        log w' = log w ++ [E_callback 0 (CB_complete p) None false false] /\ no_timer 0 w'
      else if String.eqb (status p) "error" then
        log w' = log w ++ [E_callback 0 (CB_error (or_default (error p) "Download failed")) None false false] /\
        no_timer 0 w'
      else
        (exists t, trackers w !! 0 = Some t /\
           log w' = log w ++ [E_callback 0 (CB_update p) (interval t) (isTracking t) (has_timer 0 (timers w))]) /\
        timers w' = timers w /\ trackers w' = trackers w
  | Rejected m =>
      log w' = log w ++ [E_callback 0 (CB_error m) None false false] /\ no_timer 0 w'
  end.
Proof.
  intros Ht. split; [apply polls_run|].
  assert (Hw : wf (run (w_tracker d) evs)) by (apply wf_run, wf_w_tracker).
  destruct (w_tracker_run_0 d evs) as (t & Et & _).
  set (w := run (w_tracker d) evs) in *.
  assert (Hw' : wf (set_inflight rest w)) by auto with world_db.
  assert (Ei : trackers (set_inflight rest w) !! 0 = Some t) by done.
  assert (Term : forall c, log (invoke 0 c (stop 0 (set_inflight rest w))) = log w ++ [E_callback 0 c None false false] /\
                  inflight (invoke 0 c (stop 0 (set_inflight rest w))) = rest /\
                  no_timer 0 (invoke 0 c (stop 0 (set_inflight rest w)))).
  { intros c. destruct (invoke_after_stop 0 c (set_inflight rest w) Hw') as (l & L & F & I).
    destruct (stop_cases 0 (set_inflight rest w)) as [[E _]|(t' & E & Hs)]; [congruence|].
    rewrite Ei in E; injection E as <-.
    assert (Hn : no_timer 0 (stop 0 (set_inflight rest w))) by (apply no_timer_stop_self; done).
    rewrite Hs in *. set (W := mkWorld _ _ _ _ _ _ _ _ _ _) in *.
    assert (EW : trackers W !! 0 = Some (mkTracker (downloadId t) None false))
      by (subst W; simpl; apply lookup_insert_eq).
    destruct (invoke_cases 0 c W) as [[E _]|(t' & s & E' & ->)]; [congruence|].
    rewrite EW in E'; injection E' as <-.
    rewrite (proj2 (has_timer_false 0 (timers W)) Hn). simpl.
    split; [done|split; [done|]]. intros h; apply (Hn h). }
  simpl; unfold settle; rewrite Ht.
  destruct r as [p|m]; simpl.
  - destruct (String.eqb (status p) "completed");
      [destruct (Term (CB_complete p)) as (L & I & N); done|].
    destruct (String.eqb (status p) "error");
      [destruct (Term (CB_error (or_default (error p) "Download failed"))) as (L & I & N); done|].
    simpl; unfold invoke; simpl; rewrite Et; simpl.
    split; [done|split; [eexists; split; [done|reflexivity]|done]].
  - destruct (Term (CB_error m)) as (L & I & N); done.
Qed.

Lemma C5_poll_cycle_witness :
  take_call 0 (inflight (run (w_tracker "a") [Start 0])) = Some (0, []) /\
  log (step (run (w_tracker "a") [Start 0]) (Settle 0 (Fulfilled p_completed))) =
    log (run (w_tracker "a") [Start 0]) ++ [E_callback 0 (CB_complete p_completed) None false false].
Proof.
  split; [reflexivity|].
  destruct (C5_poll_cycle "a" [Start 0] 0 [] (Fulfilled p_completed)) as (_ & _ & H); [reflexivity|].
  simpl in H. exact (proj1 H).
Defined.

(** C10: whenever onComplete or onError is invoked, [stop()] has
    already run: the tracker's [interval] is null, [isTracking] is false
    and no live timer of the tracker remains. *)
Theorem C10_stop_before_terminal_callback d evs :
  Forall snapshot_ok (log (run (w_tracker d) evs)) /\ Forall snapshot_ok (log (run w_app evs)).
Proof.
  split; apply snapshots_run.
  - apply wf_w_tracker.
  - simpl; constructor.
  - apply wf_w_app.
  - simpl; constructor.
Qed.

(* ------------------------------------------------------------------ *)
(** ** Claims about the App controller *)

(** The events of a session driven by the App alone (it never calls a
    tracker's [start()] or [stop()] other than from trackProgress). *)
Definition app_event (e : event) : Prop :=
  match e with Start _ | Stop _ => False | _ => True end.

(** Every live timer belongs to the tracker App.state.progressTracker
    refers to. *)
Definition timers_of_current (w : world) : Prop :=
  forall h k, (h, k) ∈ timers w -> progressTracker w = Some k.

Lemma exec_actions_progressTracker j acts w :
  progressTracker (exec_actions j acts w) = progressTracker w.
Proof.
  unfold exec_actions. revert w; induction acts as [|a acts IH]; intros w; simpl; [done|].
  rewrite IH. destruct a as [|p|p|m]; simpl.
  - destruct (stop_cases j w) as [[_ ->]|(t & _ & ->)]; done.
  - destruct (invoke_cases j (CB_update p) w) as [[_ ->]|(t & s & _ & ->)]; done.
  - destruct (invoke_cases j (CB_complete p) w) as [[_ ->]|(t & s & _ & ->)]; done.
  - destruct (invoke_cases j (CB_error m) w) as [[_ ->]|(t & s & _ & ->)]; done.
Qed.

Lemma current_step w e :
  wf w -> app_event e -> timers_of_current w -> timers_of_current (step w e).
Proof.
  intros Hw He Hc. destruct e as [j|j|h|n r|d|m|m|]; simpl in *; try done.
  - unfold tick. destruct (find _ _) as [[? j]|]; [|done].
    destruct (checkProgress_cases j w) as [[_ ->]|(t & _ & ->)]; done.
  - unfold settle. destruct (take_call n (inflight w)) as [[j rest]|]; [|done].
    intros h k Hin.
    destruct (exec_actions_frame j (checkProgress_settled r) (set_inflight rest w))
      as (_ & _ & _ & _ & _ & _ & _ & Hsub).
    rewrite exec_actions_progressTracker. apply (Hc h k), Hsub, Hin.
  - unfold dispatch_ok, trackProgress.
    set (w0 := set_shown (Some S_progress) (set_currentDownloadId (Some d) w)).
    assert (Hw0 : wf w0) by (subst w0; auto with world_db).
    set (w1 := match progressTracker w0 with Some j => stop j w0 | None => w0 end).
    assert (Hempty : forall x, x ∉ timers w1).
    { intros [h k] Hin. subst w1. destruct (progressTracker w0) as [j|] eqn:Ej.
      - pose proof (stop_frame j w0) as (_ & _ & _ & _ & Hsub).
        pose proof (Hc h k (Hsub _ Hin)) as Hk. change (progressTracker w0 = Some k) in Hk.
        rewrite Ej in Hk; injection Hk as <-.
        apply (no_timer_stop_self j w0 Hw0 h Hin).
      - pose proof (Hc h k Hin) as Hk. change (progressTracker w0 = Some k) in Hk. congruence. }
    set (W := set_progressTracker _ _).
    destruct (start_cases (next_obj w1) W) as [->|(t & _ & _ & ->)]; intros h k Hin; simpl in *.
    + destruct (Hempty _ Hin).
    + apply elem_of_app in Hin as [Hin|Hin]; [destruct (Hempty _ Hin)|].
      apply list_elem_of_singleton in Hin; injection Hin as -> ->. done.
Qed.

(** C4 (as stated, refuted): the new-download handler stops no tracker.
    Two quick Download clicks start trackers 0 and 1 (trackProgress stops
    0 first); tracker 0's outstanding poll then resolves completed, so the
    success section is shown while tracker 1 is polling; New Download then
    leaves tracker 1's interval running. *)
Lemma C4_new_download_keeps_tracker_polling :
  ~ (forall evs,
       shown (run w_app evs) = Some S_success \/ shown (run w_app evs) = Some S_error ->
       forall h k, (h, k) ∉ timers (step (run w_app evs) NewDownload)).
Proof.
  intros H.
  apply (H [DispatchOk "a"; DispatchOk "b"; Settle 0 (Fulfilled p_completed)]
           (or_introl eq_refl) 2%positive 1).
  vm_compute. constructor.
Qed.

(** C4 (amended): in every App session at most one tracker polls, and it
    is the one App.state.progressTracker refers to, because trackProgress
    stops the previous tracker before creating and starting a new one;
    the new-download handler only resets the UI and leaves the trackers
    and their timers as they are. *)
Theorem C4_single_polling_tracker evs :
  Forall app_event evs ->
  (forall h k, (h, k) ∈ timers (run w_app evs) -> progressTracker (run w_app evs) = Some k) /\
  (forall h1 k1 h2 k2, (h1, k1) ∈ timers (run w_app evs) -> (h2, k2) ∈ timers (run w_app evs) -> k1 = k2) /\
  timers (step (run w_app evs) NewDownload) = timers (run w_app evs) /\
  trackers (step (run w_app evs) NewDownload) = trackers (run w_app evs).
Proof.
  intros HF.
  assert (Gen : forall w, wf w -> timers_of_current w -> timers_of_current (run w evs)).
  { unfold run; induction HF as [|e evs He _ IH]; intros w Hw Hc; simpl; [done|].
    apply IH; [apply wf_step; done|apply current_step; done]. }
  assert (Hc : timers_of_current (run w_app evs)).
  { apply Gen; [apply wf_w_app|]. intros h k Hin; apply elem_of_nil in Hin as []. }
  split; [exact Hc|split; [|done]].
  intros h1 k1 h2 k2 H1 H2. apply Hc in H1, H2. congruence.
Qed.

Lemma C4_single_polling_tracker_witness :
  Forall app_event [DispatchOk "a"; DispatchOk "b"] /\
  timers (step (run w_app [DispatchOk "a"; DispatchOk "b"]) NewDownload) =
    timers (run w_app [DispatchOk "a"; DispatchOk "b"]).
Proof.
  split; [repeat constructor|].
  destruct (C4_single_polling_tracker [DispatchOk "a"; DispatchOk "b"]) as (_ & _ & H & _).
  - repeat constructor.
  - exact H.
Defined.

(* ------------------------------------------------------------------ *)
(** ** API gateway: request bodies and error normalisation *)

(** JavaScript values as the gateway handles them. *)
Inductive jsval :=
| JUndefined
| JNull
| JBool (b : bool)
| JNum (z : Z)
| JStr (s : string)
| JArr (l : list jsval)
| JObj (props : list (string * jsval)).

(** JSON text, as a tree. *)
Inductive json :=
| J_null
| J_bool (b : bool)
| J_num (z : Z)
| J_str (s : string)
| J_arr (l : list json)
| J_obj (props : list (string * json)).

(** [JSON.stringify]: [undefined] has no JSON text; an object property
    whose value is [undefined] is left out; an [undefined] array element
    becomes [null]. *)
Fixpoint stringify (v : jsval) : option json :=
  match v with
  | JUndefined => None
  | JNull => Some J_null
  | JBool b => Some (J_bool b)
  | JNum z => Some (J_num z)
  | JStr s => Some (J_str s)
  | JArr l =>
      Some (J_arr ((fix go (l : list jsval) : list json :=
                      match l with
                      | [] => []
                      | x :: l' => match stringify x with Some j => j | None => J_null end :: go l'
                      end) l))
  | JObj ps =>
      Some (J_obj ((fix go (ps : list (string * jsval)) : list (string * json) :=
                      match ps with
                      | [] => []
                      | (k, x) :: ps' => match stringify x with
                                         | Some j => (k, j) :: go ps'
                                         | None => go ps'
                                         end
                      end) ps))
  end.

(** A request as handed to [fetch]: method, endpoint path (appended to
    CONFIG.API_BASE_URL), headers and serialized body. *)
Record request := mkRequest {
  req_method : string;
  req_endpoint : string;
  req_headers : list (string * string);
  req_body : option json
}.

Definition get_request (endpoint : string) : request :=
  mkRequest "GET" endpoint [] None.

Definition post_request (endpoint : string) (data : jsval) : request :=
  mkRequest "POST" endpoint [("Content-Type", "application/json")] (stringify data).

(** The [data] object of [API.startDownload(url, type, quality)]. *)
Definition startDownload_data (url type quality : string) : jsval :=
  JObj [("url", JStr url);
        ("type", JStr type);
        ("quality", if String.eqb type CONFIG.DOWNLOAD_TYPES_VIDEO then JStr quality else JUndefined);
        ("audio_format", if String.eqb type CONFIG.DOWNLOAD_TYPES_AUDIO
                         then JStr CONFIG.DEFAULT_AUDIO_FORMAT else JUndefined)].

Definition startDownload_request (url type quality : string) : request :=
  post_request CONFIG.ENDPOINTS_DOWNLOAD (startDownload_data url type quality).

Record js_error := mkError { err_name : string; message : string }.

(** A response body: JSON text (already parsed), or text that is not
    JSON, such as an HTML error page. *)
Inductive body :=
| Body_json (v : jsval)
| Body_text (s : string).

Record response := mkResponse { ok : bool; body_of : body }.

(** How [await fetch(...)] settles. *)
Inductive fetched :=
| Fetch_rejected (e : js_error)
| Fetch_response (r : response).

(** How a gateway call settles. *)
Inductive outcome :=
| Resolves (v : jsval)
| Throws (e : js_error).

(** [obj.error] on a parsed JSON value; [JSON.parse] keeps the last of
    duplicate keys. *)
Definition prop_lookup (key : string) (ps : list (string * jsval)) : jsval :=
  fold_left (fun acc kv => if String.eqb kv.1 key then kv.2 else acc) ps JUndefined.

Definition get_error_prop (v : jsval) : outcome :=
  match v with
  | JNull => Throws (mkError "TypeError" "Cannot read properties of null (reading 'error')")
  | JUndefined => Throws (mkError "TypeError" "Cannot read properties of undefined (reading 'error')")
  | JObj ps => Resolves (prop_lookup "error" ps)
  | _ => Resolves JUndefined
  end.

Definition truthy (v : jsval) : bool :=
  match v with
  | JUndefined | JNull => false
  | JBool b => b
  | JNum z => negb (Z.eqb z 0)
  | JStr s => negb (String.eqb s "")
  | JArr _ | JObj _ => true
  end.

Fixpoint join (sep : string) (l : list string) : string :=
  match l with
  | [] => ""
  | [s] => s
  | s :: l' => String.append s (String.append sep (join sep l'))
  end.

(** [String(v)], the message [new Error(v)] stores. *)
Fixpoint to_js_string (v : jsval) : string :=
  match v with
  | JUndefined => "undefined"
  | JNull => "null"
  | JBool true => "true"
  | JBool false => "false"
  | JNum z => pretty z
  | JStr s => s
  | JArr l =>
      join ","
        ((fix go (l : list jsval) : list string :=
            match l with
            | [] => []
            | x :: l' => match x with
                         | JUndefined | JNull => ""%string
                         | _ => to_js_string x
                         end :: go l'
            end) l)
  | JObj _ => "[object Object]"
  end.

Section Gateway.
(** The message of the [SyntaxError] with which [response.json()]
    rejects on a body that is not JSON (engine specific). *)
Variable syntax_message : string -> string.

(** [await response.json()] *)
Definition response_json (r : response) : outcome :=
  match body_of r with
  | Body_json v => Resolves v
  | Body_text s => Throws (mkError "SyntaxError" (syntax_message s))
  end.

(** The shared body of [API.get] and [API.post] once [fetch] settled;
    the [catch] block logs and rethrows the same error. *)
Definition handle_fetch (f : fetched) : outcome :=
  match f with
  | Fetch_rejected e => Throws e
  | Fetch_response r =>
      if ok r then response_json r
      else match response_json r with
           | Throws e => Throws e
           | Resolves err =>
               match get_error_prop err with
               | Throws e => Throws e
               | Resolves x =>
                   Throws (mkError "Error" (to_js_string (if truthy x then x else JStr "Request failed")))
               end
           end
  end.

Variable net : request -> fetched.

Definition API_get (endpoint : string) : outcome := handle_fetch (net (get_request endpoint)).

Definition API_post (endpoint : string) (data : jsval) : outcome :=
  handle_fetch (net (post_request endpoint data)).

Definition API_startDownload (url type quality : string) : outcome :=
  handle_fetch (net (startDownload_request url type quality)).

Definition API_getVideoInfo (url : string) : outcome :=
  API_post CONFIG.ENDPOINTS_INFO (JObj [("url", JStr url)]).
End Gateway.

(* ------------------------------------------------------------------ *)
(** ** URL validation and [App.fetchVideoInfo] *)

(** [String.prototype.trim] on strings of code units below 256: the
    white space removed is TAB..CR, SPACE and NO-BREAK SPACE. *)
Definition js_space (c : ascii) : bool :=
  let n := nat_of_ascii c in
  (n =? 32) || ((9 <=? n) && (n <=? 13)) || (n =? 160).

Fixpoint trim_start (l : list ascii) : list ascii :=
  match l with
  | [] => []
  | c :: l' => if js_space c then trim_start l' else l
  end.

Definition trim (s : string) : string :=
  string_of_list_ascii
    (rev (trim_start (rev (trim_start (list_ascii_of_string s))))).

(** What one run of [fetchVideoInfo] does, in order. *)
Inductive ui_effect :=
| Fx_toast (msg : string)
| Fx_set_currentUrl (url : string)
| Fx_setLoading (b : bool)
| Fx_api_getVideoInfo (url : string)
| Fx_store_videoInfo (info : jsval)
| Fx_showVideoInfo (info : jsval)
| Fx_showError (msg : string).

Section Controller.
(** The [URL] constructor: [None] when it throws a [TypeError]. *)
Variable URL : Type.
Variable new_URL : string -> option URL.

Definition isValidUrl (url : string) : bool :=
  match new_URL url with
  | Some _ => String.length url <=? CONFIG.MAX_URL_LENGTH
  | None => false
  end.

Variable syntax_message : string -> string.
Variable net : request -> fetched.

(** [App.fetchVideoInfo] with the URL input holding [input]. *)
Definition fetchVideoInfo (input : string) : list ui_effect :=
  let url := trim input in
  if String.eqb url "" then [Fx_toast "Please enter a URL"]
  else if negb (isValidUrl url) then [Fx_toast "Please enter a valid URL"]
  else
    [Fx_set_currentUrl url; Fx_setLoading true; Fx_api_getVideoInfo url] ++
    match API_getVideoInfo syntax_message net url with
    | Resolves info =>
        [Fx_store_videoInfo info; Fx_showVideoInfo info; Fx_toast "Video info loaded successfully!"]
    | Throws e =>
        [Fx_toast (String.append "Error: " (message e)); Fx_showError (message e)]
    end ++ [Fx_setLoading false].
End Controller.

Definition is_api_effect (f : ui_effect) : bool :=
  match f with Fx_api_getVideoInfo _ => true | _ => false end.

(** A stand-in URL parser for concrete runs: accepts strings that start
    with [http://] or [https://]. *)
Definition toy_URL (s : string) : option string :=
  if String.prefix "http://" s || String.prefix "https://" s then Some s else None.

(* ------------------------------------------------------------------ *)
(** ** Claims about the gateway and the controller *)

(** C6: the serialized body of [API.startDownload] for an audio download
    is exactly [{url, type, audio_format: "mp3"}] with no quality field;
    for a video download it is exactly [{url, type, quality}] with no
    audio-format field.  Fields whose value is [undefined] are dropped by
    [JSON.stringify], so the omitted one is absent, not null. *)
Theorem C6_startDownload_body (url quality : string) :
  req_body (startDownload_request url CONFIG.DOWNLOAD_TYPES_AUDIO quality)
  = Some (J_obj [("url", J_str url); ("type", J_str "audio"); ("audio_format", J_str "mp3")]) /\
  req_body (startDownload_request url CONFIG.DOWNLOAD_TYPES_VIDEO quality)
  = Some (J_obj [("url", J_str url); ("type", J_str "video"); ("quality", J_str quality)]) /\
  req_method (startDownload_request url CONFIG.DOWNLOAD_TYPES_VIDEO quality) = "POST" /\
  req_endpoint (startDownload_request url CONFIG.DOWNLOAD_TYPES_AUDIO quality) = "/api/download".
Proof. repeat split; reflexivity. Qed.

(** C7: a non-success response whose body is not JSON text (an HTML
    error page from a proxy, say) does not yield the server message nor
    ['Request failed']: [response.json()] rejects and its [SyntaxError],
    carrying the parser's message, is what both [API.get] and
    [API.post] throw. *)
Theorem C7_non_json_error_body (syntax_message : string -> string)
    (net : request -> fetched) (endpoint : string) (data : jsval) (page : string) :
  (forall q, net q = Fetch_response (mkResponse false (Body_text page))) ->
  API_get syntax_message net endpoint = Throws (mkError "SyntaxError" (syntax_message page)) /\
  API_post syntax_message net endpoint data = Throws (mkError "SyntaxError" (syntax_message page)).
Proof.
  intros Hnet. unfold API_get, API_post. rewrite !Hnet. split; reflexivity.
Qed.

Lemma C7_non_json_error_body_witness :
  let msg := fun _ : string => "Unexpected token '<', is not valid JSON"%string in
  let net := fun _ : request => Fetch_response (mkResponse false (Body_text "<html>502 Bad Gateway</html>")) in
  API_get msg net "/api/progress/1" = Throws (mkError "SyntaxError" "Unexpected token '<', is not valid JSON") /\
  API_post msg net "/api/info" (JObj [("url", JStr "https://youtu.be/x")])
  = Throws (mkError "SyntaxError" "Unexpected token '<', is not valid JSON").
Proof.
  intros msg net.
  apply (C7_non_json_error_body msg net "/api/progress/1" (JObj [("url", JStr "https://youtu.be/x")])
           "<html>502 Bad Gateway</html>").
  intros q. reflexivity.
Defined.

(** C8: when the trimmed input is empty, or fails [UI.isValidUrl],
    [fetchVideoInfo] shows a single notice and returns: it never calls
    [API.getVideoInfo], and its effects do not depend on the network. *)
Theorem C8_invalid_input_no_request (URL : Type) (new_URL : string -> option URL)
    (syntax_message : string -> string) (input : string) :
  trim input = ""%string \/ isValidUrl URL new_URL (trim input) = false ->
  (exists msg, forall net, fetchVideoInfo URL new_URL syntax_message net input = [Fx_toast msg]) /\
  (forall net, forallb (fun f => negb (is_api_effect f))
                 (fetchVideoInfo URL new_URL syntax_message net input) = true).
Proof.
  intros H.
  assert (Hx : exists msg, forall net,
             fetchVideoInfo URL new_URL syntax_message net input = [Fx_toast msg]).
  { unfold fetchVideoInfo.
    destruct (String.eqb_spec (trim input) "") as [E|E].
    - eexists. intros net. reflexivity.
    - destruct H as [H|H]; [contradiction|].
      rewrite H. eexists. intros net. reflexivity. }
  split; [exact Hx|].
  intros net. destruct Hx as [msg Hm]. rewrite Hm. reflexivity.
Qed.

Lemma C8_invalid_input_no_request_witness :
  (trim "  not a url "%string = ""%string \/
   isValidUrl string toy_URL (trim "  not a url "%string) = false) /\
  ((exists msg, forall net,
      fetchVideoInfo string toy_URL (fun s => s) net "  not a url "%string = [Fx_toast msg]) /\
   (forall net, forallb (fun f => negb (is_api_effect f))
                  (fetchVideoInfo string toy_URL (fun s => s) net "  not a url "%string) = true)).
Proof.
  assert (H : trim "  not a url "%string = ""%string \/
              isValidUrl string toy_URL (trim "  not a url "%string) = false)
    by (right; vm_compute; reflexivity).
  split; [exact H|].
  exact (C8_invalid_input_no_request string toy_URL (fun s => s) "  not a url "%string H).
Defined.

(** A concrete run: the whitespace-padded input is trimmed before the
    length and parse checks, and a valid URL reaches the gateway. *)
Example fetchVideoInfo_valid_run :
  fetchVideoInfo string toy_URL (fun s => s)
    (fun _ => Fetch_response (mkResponse false (Body_json (JObj [("error", JStr "Invalid URL")]))))
    " https://youtu.be/x "%string
  = [Fx_set_currentUrl "https://youtu.be/x"; Fx_setLoading true; Fx_api_getVideoInfo "https://youtu.be/x";
     Fx_toast "Error: Invalid URL"; Fx_showError "Invalid URL"; Fx_setLoading false].
Proof. vm_compute. reflexivity. Qed.

(** C9: [UI.isValidUrl url] is [true] exactly when the [URL] constructor
    accepts [url] and [url] has at most CONFIG.MAX_URL_LENGTH (2048)
    characters; it is a total boolean function, and it returns [false]
    whenever the constructor throws. *)
Theorem C9_isValidUrl_spec (URL : Type) (new_URL : string -> option URL) (url : string) :
  (isValidUrl URL new_URL url = true <->
   (exists u, new_URL url = Some u) /\ String.length url <= 2048) /\
  (new_URL url = None -> isValidUrl URL new_URL url = false).
Proof.
  unfold isValidUrl, CONFIG.MAX_URL_LENGTH. split.
  - destruct (new_URL url) as [u|].
    + rewrite Nat.leb_le. split; [intros H; split; [exists u; reflexivity|exact H]|].
      intros [_ H]; exact H.
    + split; [discriminate|]. intros [[u Hu] _]; discriminate.
  - intros ->. reflexivity.
Qed.

(* ------------------------------------------------------------------ *)
(** ** More of the UI module *)

Definition dq_char : ascii := ascii_of_nat 34.
Definition dq : string := String dq_char EmptyString.
Definition nbsp : ascii := ascii_of_nat 160.
Definition nl : string := String (ascii_of_nat 10) EmptyString.

(** Serialising a text node whose parent is a [div] (HTML fragment
    serialization, attribute mode off): [&], NO-BREAK SPACE, [<] and [>]
    are replaced by character references, every other character is kept. *)
Definition escape_char (c : ascii) : string :=
  if ascii_dec c "&"%char then "&amp;"
  else if ascii_dec c nbsp then "&nbsp;"
  else if ascii_dec c "<"%char then "&lt;"
  else if ascii_dec c ">"%char then "&gt;"
  else String c EmptyString.

Fixpoint escape_text (s : string) : string :=
  match s with
  | EmptyString => EmptyString
  | String c r => String.append (escape_char c) (escape_text r)
  end.

(** [UI.escapeHtml(text)]: [div.textContent = text] (a nullable
    DOMString: [null] and [undefined] give no text), then [div.innerHTML]. *)
Definition escapeHtml (text : jsval) : string :=
  match text with
  | JUndefined | JNull => EmptyString
  | _ => escape_text (to_js_string text)
  end.

(** Decoding of the four character references above, as the HTML parser
    does when it reads the markup back. *)
Fixpoint html_unescape (s : string) : string :=
  match s with
  | String "&" (String "a" (String "m" (String "p" (String ";" r)))) =>
      String "&" (html_unescape r)
  | String "&" (String "n" (String "b" (String "s" (String "p" (String ";" r))))) =>
      String nbsp (html_unescape r)
  | String "&" (String "l" (String "t" (String ";" r))) => String "<" (html_unescape r)
  | String "&" (String "g" (String "t" (String ";" r))) => String ">" (html_unescape r)
  | String c r => String c (html_unescape r)
  | EmptyString => EmptyString
  end.

(** A property of a JSON object, as [download.filename] reads it. *)
Definition get_prop (key : string) (obj : list (string * jsval)) : jsval :=
  prop_lookup key obj.

(** [API.getFileUrl(downloadId)] *)
Definition getFileUrl (API_BASE_URL : string) (downloadId : jsval) : string :=
  String.append API_BASE_URL
    (String.append CONFIG.ENDPOINTS_FILE (String.append "/" (to_js_string downloadId))).

Definition indent23 : string := "                       ".

(** The opening tag of the download link of one history item in
    [UI.showHistory], up to the [download] attribute's value. *)
Definition history_link_head (API_BASE_URL : string) (download : list (string * jsval)) : string :=
  String.concat ""
    ["<a href="; dq; getFileUrl API_BASE_URL (get_prop "download_id" download); dq; " "; nl;
     indent23; "class="; dq; "btn btn-primary btn-sm"; dq; " "; nl;
     indent23; "download="; dq].

(** The whole opening tag. *)
Definition history_link (API_BASE_URL : string) (download : list (string * jsval)) : string :=
  String.append (history_link_head API_BASE_URL download)
    (String.append (escapeHtml (get_prop "filename" download)) (String.append dq ">")).

(** The HTML tokenizer's attribute value (double-quoted) state: the
    value runs up to the next double quote, the rest is read as markup. *)
Fixpoint dq_attr_value (s : string) : string * string :=
  match s with
  | EmptyString => (EmptyString, EmptyString)
  | String c r =>
      if ascii_dec c dq_char then (EmptyString, r)
      else let (v, rest) := dq_attr_value r in (String c v, rest)
  end.




(** [el.textContent = v] with a nullable DOMString. *)
Definition dom_string (v : jsval) : string :=
  match v with
  | JUndefined | JNull => EmptyString
  | _ => to_js_string v
  end.




(** [UI.switchTab(tabName)] on the nav buttons ([data-tab], active) and
    the tab contents ([id], active). *)
Definition switchTab (tabName : string) (navBtns : list (option string * bool))
    (tabContents : list (string * bool)) : list (option string * bool) * list (string * bool) :=
  (map (fun b => (b.1, match b.1 with Some t => String.eqb t tabName | None => false end)) navBtns,
   map (fun c => (c.1, String.eqb c.1 (String.append tabName "-tab"))) tabContents).

(* ------------------------------------------------------------------ *)
(** ** More of the App controller *)

Record app_state := mkAppState {
  st_currentUrl : string;
  st_currentDownloadType : string;
  st_currentQuality : string;
  st_currentDownloadId : jsval
}.

Inductive app_effect :=
| AFx_toast (msg : string)
| AFx_setLoading (b : bool)
| AFx_request (q : request)
| AFx_showProgress
| AFx_showError (msg : string)
| AFx_trackProgress (downloadId : jsval)
| AFx_loadStats
| AFx_loadHistory.

(** [v.key] on a parsed JSON value, for a key that no prototype of a
    primitive or an array defines. *)
Definition read_prop (key : string) (v : jsval) : outcome :=
  match v with
  | JNull => Throws (mkError "TypeError"
               (String.concat "" ["Cannot read properties of null (reading '"; key; "')"]))
  | JUndefined => Throws (mkError "TypeError"
               (String.concat "" ["Cannot read properties of undefined (reading '"; key; "')"]))
  | JObj ps => Resolves (prop_lookup key ps)
  | _ => Resolves JUndefined
  end.

(** The request [API.getProgress(downloadId)] sends. *)
Definition getProgress_request (downloadId : jsval) : request :=
  get_request (String.concat "" [CONFIG.ENDPOINTS_PROGRESS; "/"; to_js_string downloadId]).


Definition set_currentDownloadId_st (id : jsval) (s : app_state) : app_state :=
  mkAppState (st_currentUrl s) (st_currentDownloadType s) (st_currentQuality s) id.

Section AppController.
Variable syntax_message : string -> string.
Variable net : request -> fetched.

(** [App.startDownload()]: the new state and the effects in order. *)
Definition App_startDownload (s : app_state) : app_state * list app_effect :=
  if String.eqb (st_currentUrl s) "" then (s, [AFx_toast "Please fetch video info first"])
  else
    let q := startDownload_request (st_currentUrl s) (st_currentDownloadType s) (st_currentQuality s) in
    let failed := fun e : js_error =>
      (s, [AFx_toast (String.append "Error: " (message e)); AFx_showError (message e)]) in
    let r :=
      match API_startDownload syntax_message net (st_currentUrl s) (st_currentDownloadType s)
              (st_currentQuality s) with
      | Resolves response =>
          match read_prop "download_id" response with
          | Resolves id =>
              (set_currentDownloadId_st id s,
               [AFx_showProgress; AFx_toast "Download started!"; AFx_trackProgress id])
          | Throws e => failed e
          end
      | Throws e => failed e
      end in
    (r.1, [AFx_setLoading true; AFx_request q] ++ r.2 ++ [AFx_setLoading false]).

End AppController.


(* ------------------------------------------------------------------ *)
(** ** Further properties of the tracker, the gateway and the UI *)

(** A tracker never holds two running intervals: all live timers of a
    tracker are the one its [interval] field holds, and it is tracking. *)
Theorem tracker_single_interval d evs :
  (forall h1 h2 k, (h1, k) ∈ timers (run (w_tracker d) evs) -> (h2, k) ∈ timers (run (w_tracker d) evs) ->
     h1 = h2 /\ exists t, trackers (run (w_tracker d) evs) !! k = Some t /\
                          interval t = Some h1 /\ isTracking t = true) /\
  (forall h1 h2 k, (h1, k) ∈ timers (run w_app evs) -> (h2, k) ∈ timers (run w_app evs) ->
     h1 = h2 /\ exists t, trackers (run w_app evs) !! k = Some t /\
                          interval t = Some h1 /\ isTracking t = true).
Proof.
  assert (G : forall w, wf w -> forall h1 h2 k, (h1, k) ∈ timers w -> (h2, k) ∈ timers w ->
     h1 = h2 /\ exists t, trackers w !! k = Some t /\ interval t = Some h1 /\ isTracking t = true).
  { intros w [Ht Hi _] h1 h2 k H1 H2.
    destruct (Ht _ _ H1) as (t1 & E1 & I1). destruct (Ht _ _ H2) as (t2 & E2 & I2).
    rewrite E1 in E2. injection E2 as <-. split; [congruence|].
    exists t1. repeat split; [done|done|].
    destruct (isTracking t1) eqn:Et; [done|]. rewrite (Hi _ _ E1 Et) in I1. discriminate. }
  split; apply G, wf_run; [apply wf_w_tracker|apply wf_w_app].
Qed.




(** Calling [stop()] again changes nothing. *)
Theorem stop_idempotent k w : stop k (stop k w) = stop k w.
Proof.
  destruct (stop_cases k w) as [[E ->]|(t & E & ->)].
  - unfold stop. rewrite E. done.
  - unfold stop at 1; simpl. rewrite lookup_insert_eq; simpl.
    rewrite insert_insert_eq. done.
Qed.

(** A success response with a JSON body resolves to the parsed value,
    and a rejected [fetch] (network failure) is rethrown unchanged, not
    turned into a ['Request failed'] error. *)
Theorem gateway_ok_and_transport (syntax_message : string -> string) (net : request -> fetched)
    (endpoint : string) (data : jsval) :
  (forall v, (forall q, net q = Fetch_response (mkResponse true (Body_json v))) ->
     API_get syntax_message net endpoint = Resolves v /\ API_post syntax_message net endpoint data = Resolves v) /\
  (forall e, (forall q, net q = Fetch_rejected e) ->
     API_get syntax_message net endpoint = Throws e /\ API_post syntax_message net endpoint data = Throws e).
Proof.
  split; intros x Hnet; unfold API_get, API_post; rewrite !Hnet; split; reflexivity.
Qed.





Lemma str_app_cons c (a b : string) : String.append (String c a) b = String c (String.append a b).
Proof. reflexivity. Qed.

Lemma str_app_nil (b : string) : String.append EmptyString b = b.
Proof. reflexivity. Qed.

Lemma str_app_assoc (a b c : string) :
  String.append (String.append a b) c = String.append a (String.append b c).
Proof. induction a as [|x a IH]; [done|]. by rewrite !str_app_cons, IH. Qed.

Lemma chars_app (a b : string) :
  list_ascii_of_string (String.append a b) = list_ascii_of_string a ++ list_ascii_of_string b.
Proof. induction a as [|x a IH]; [done|]. rewrite str_app_cons; simpl. by rewrite IH. Qed.

Lemma html_unescape_cons c r :
  c <> "&"%char -> html_unescape (String c r) = String c (html_unescape r).
Proof.
  intros H. destruct c as [[] [] [] [] [] [] [] []]; try reflexivity.
  exfalso; apply H; reflexivity.
Qed.

Lemma html_unescape_escape_text s : html_unescape (escape_text s) = s.
Proof.
  induction s as [|c s IH]; [done|]. simpl. unfold escape_char.
  destruct (ascii_dec c "&") as [->|N1]; [rewrite !str_app_cons, str_app_nil; simpl; by rewrite IH|].
  destruct (ascii_dec c nbsp) as [->|N2]; [rewrite !str_app_cons, str_app_nil; simpl; by rewrite IH|].
  destruct (ascii_dec c "<") as [->|N3]; [rewrite !str_app_cons, str_app_nil; simpl; by rewrite IH|].
  destruct (ascii_dec c ">") as [->|N4]; [rewrite !str_app_cons, str_app_nil; simpl; by rewrite IH|].
  rewrite str_app_cons, str_app_nil, html_unescape_cons by done. by rewrite IH.
Qed.

Lemma escape_text_chars s c :
  In c (list_ascii_of_string (escape_text s)) ->
  c <> "<"%char /\ c <> ">"%char /\ (c = dq_char -> In dq_char (list_ascii_of_string s)).
Proof.
  induction s as [|x s IH]; simpl; [done|]. rewrite chars_app. intros Hin.
  apply in_app_or in Hin as [Hin|Hin].
  - unfold escape_char in Hin.
    destruct (ascii_dec x "&") as [->|N1];
      [simpl in Hin; intuition (subst; discriminate)|].
    destruct (ascii_dec x nbsp) as [->|N2];
      [simpl in Hin; intuition (subst; discriminate)|].
    destruct (ascii_dec x "<") as [->|N3];
      [simpl in Hin; intuition (subst; discriminate)|].
    destruct (ascii_dec x ">") as [->|N4];
      [simpl in Hin; intuition (subst; discriminate)|].
    simpl in Hin. destruct Hin as [<-|[]]. split; [done|split; [done|]]. intros ->; left; done.
  - destruct (IH Hin) as (A & B & C). split; [done|split; [done|]]. intros E; right; auto.
Qed.

Lemma escape_text_app a b :
  escape_text (String.append a b) = String.append (escape_text a) (escape_text b).
Proof.
  induction a as [|x a IH]; [done|]. rewrite str_app_cons; simpl. by rewrite IH, str_app_assoc.
Qed.

Lemma escape_text_dq : escape_text dq = dq.
Proof. reflexivity. Qed.

Lemma dq_attr_value_app x y :
  ~ In dq_char (list_ascii_of_string x) -> dq_attr_value (String.append x (String.append dq y)) = (x, y).
Proof.
  induction x as [|c x IH]; intros H.
  - rewrite str_app_nil. unfold dq. rewrite str_app_cons, str_app_nil. simpl.
    destruct (ascii_dec dq_char dq_char); done.
  - rewrite str_app_cons; simpl.
    destruct (ascii_dec c dq_char) as [->|N]; [exfalso; apply H; left; done|].
    rewrite IH; [done|]. intros Hin; apply H; right; done.
Qed.

(** [UI.escapeHtml] is safe in text content and loses nothing: its output
    has no [<] or [>], and reading it back as HTML gives exactly the text
    the value shows as [textContent]. *)
Theorem escapeHtml_text_safe (text : jsval) :
  html_unescape (escapeHtml text) = dom_string text /\
  ~ In "<"%char (list_ascii_of_string (escapeHtml text)) /\
  ~ In ">"%char (list_ascii_of_string (escapeHtml text)).
Proof.
  assert (G : forall s, html_unescape (escape_text s) = s /\
                ~ In "<"%char (list_ascii_of_string (escape_text s)) /\
                ~ In ">"%char (list_ascii_of_string (escape_text s))).
  { intros s. split; [apply html_unescape_escape_text|].
    split; intros Hin; destruct (escape_text_chars _ _ Hin) as (A & B & _); done. }
  destruct text; first [apply G | exact (G EmptyString)].
Qed.

(** [UI.escapeHtml] leaves double quotes as they are, yet
    [UI.showHistory] puts its output inside the double-quoted [download]
    attribute: a history entry whose filename contains a double quote
    ends the attribute there, and the rest of the filename is read as
    more markup of the [<a>] tag. *)
Theorem history_filename_quote (API_BASE_URL : string) (download : list (string * jsval))
    (pre post : string) :
  get_prop "filename" download = JStr (String.append pre (String.append dq post)) ->
  ~ In dq_char (list_ascii_of_string pre) ->
  history_link API_BASE_URL download =
    String.append (history_link_head API_BASE_URL download)
      (String.append (escape_text pre)
         (String.append dq (String.append (escape_text post) (String.append dq ">")))) /\
  dq_attr_value (String.append (escape_text pre)
                   (String.append dq (String.append (escape_text post) (String.append dq ">"))))
  = (escape_text pre, String.append (escape_text post) (String.append dq ">")).
Proof.
  intros Hf Hpre. split.
  - unfold history_link. rewrite Hf. simpl.
    rewrite !escape_text_app, escape_text_dq, !str_app_assoc. reflexivity.
  - apply dq_attr_value_app. intros Hin.
    destruct (escape_text_chars _ _ Hin) as (_ & _ & C). apply Hpre, C; done.
Qed.

Lemma history_filename_quote_witness :
  (get_prop "filename" [("download_id", JStr "7");
                        ("filename", JStr (String.append "clip" (String.append dq " onclick=x .mp4")))]
   = JStr (String.append "clip" (String.append dq " onclick=x .mp4")) /\
   ~ In dq_char (list_ascii_of_string "clip")) /\
  dq_attr_value (String.append (escape_text "clip")
                   (String.append dq (String.append (escape_text " onclick=x .mp4") (String.append dq ">"))))
  = (escape_text "clip", String.append (escape_text " onclick=x .mp4") (String.append dq ">")).
Proof.
  assert (H1 : get_prop "filename" [("download_id", JStr "7");
                        ("filename", JStr (String.append "clip" (String.append dq " onclick=x .mp4")))]
               = JStr (String.append "clip" (String.append dq " onclick=x .mp4"))) by reflexivity.
  assert (H2 : ~ In dq_char (list_ascii_of_string "clip")) by (vm_compute; intuition discriminate).
  split; [split; assumption|].
  exact (proj2 (history_filename_quote "http://localhost:5000" _ "clip" " onclick=x .mp4" H1 H2)).
Defined.

(** With no double quote in the filename, the [download] attribute's
    value is the whole escaped filename. *)
Theorem history_filename_plain (API_BASE_URL : string) (download : list (string * jsval)) (fn : string) :
  get_prop "filename" download = JStr fn ->
  ~ In dq_char (list_ascii_of_string fn) ->
  history_link API_BASE_URL download =
    String.append (history_link_head API_BASE_URL download) (String.append (escape_text fn) (String.append dq ">")) /\
  dq_attr_value (String.append (escape_text fn) (String.append dq ">")) = (escape_text fn, ">"%string).
Proof.
  intros Hf Hfn. split.
  - unfold history_link. rewrite Hf. reflexivity.
  - apply dq_attr_value_app. intros Hin.
    destruct (escape_text_chars _ _ Hin) as (_ & _ & C). apply Hfn, C; done.
Qed.

Lemma history_filename_plain_witness :
  (get_prop "filename" [("filename", JStr "a&b.mp4")] = JStr "a&b.mp4" /\
   ~ In dq_char (list_ascii_of_string "a&b.mp4")) /\
  dq_attr_value (String.append (escape_text "a&b.mp4") (String.append dq ">")) = (escape_text "a&b.mp4", ">"%string).
Proof.
  assert (H1 : get_prop "filename" [("filename", JStr "a&b.mp4")] = JStr "a&b.mp4") by reflexivity.
  assert (H2 : ~ In dq_char (list_ascii_of_string "a&b.mp4")) by (vm_compute; intuition discriminate).
  split; [split; assumption|].
  exact (proj2 (history_filename_plain "" [("filename", JStr "a&b.mp4")] "a&b.mp4" H1 H2)).
Defined.





(** [UI.switchTab(t)]: a later call undoes an earlier one, each nav
    button ends active exactly when its [data-tab] is [t], and with
    distinct element ids exactly one tab content is active when
    [t-tab] exists and none otherwise. *)
Theorem switchTab_active (a t : string) (navBtns : list (option string * bool))
    (tabContents : list (string * bool)) :
  switchTab t (switchTab a navBtns tabContents).1 (switchTab a navBtns tabContents).2 =
    switchTab t navBtns tabContents /\
  Forall (fun b => b.2 = match b.1 with Some t' => String.eqb t' t | None => false end)
    (switchTab t navBtns tabContents).1 /\
  (NoDup (map fst tabContents) ->
   length (List.filter snd (switchTab t navBtns tabContents).2) =
     if existsb (fun id => String.eqb id (String.append t "-tab")) (map fst tabContents) then 1 else 0).
Proof.
  split; [|split].
  - unfold switchTab; simpl. rewrite !map_map. done.
  - unfold switchTab; simpl. apply Forall_forall. intros b Hb.
    apply list_elem_of_In, in_map_iff in Hb as (b' & <- & _). done.
  - unfold switchTab; simpl. induction tabContents as [|[id x] cs IH]; intros ND; [done|].
    simpl in ND |- *. apply NoDup_cons in ND as [Nin ND].
    destruct (String.eqb_spec id (String.append t "-tab")) as [->|Ne]; simpl.
    + rewrite IH by done.
      destruct (existsb _ (map fst cs)) eqn:Ex; [|done].
      apply existsb_exists in Ex as (y & Hy & Ey). apply String.eqb_eq in Ey; subst y.
      exfalso; apply Nin. by apply list_elem_of_In.
    + apply IH; done.
Qed.

Lemma switchTab_active_witness :
  NoDup (map fst [("download-tab", true); ("history-tab", false); ("stats-tab", false)]) /\
  length (List.filter snd (switchTab "history" [] [("download-tab", true); ("history-tab", false); ("stats-tab", false)]).2) = 1.
Proof.
  assert (H : NoDup (map fst [("download-tab", true); ("history-tab", false); ("stats-tab", false)])).
  { simpl. repeat constructor; simpl; rewrite ?list_elem_of_In; simpl; intuition discriminate. }
  split; [exact H|].
  destruct (switchTab_active "download" "history" [] [("download-tab", true); ("history-tab", false); ("stats-tab", false)])
    as (_ & _ & C).
  rewrite (C H). reflexivity.
Defined.



(** A start-download response without [download_id] is still taken as
    success: the App shows the progress section, toasts, and starts a
    tracker for the id [undefined], whose polls request
    [/api/progress/undefined]. *)
Theorem App_startDownload_missing_id (syntax_message : string -> string) (net : request -> fetched)
    (s : app_state) (ps : list (string * jsval)) :
  st_currentUrl s <> ""%string ->
  (forall q, net q = Fetch_response (mkResponse true (Body_json (JObj ps)))) ->
  prop_lookup "download_id" ps = JUndefined ->
  st_currentDownloadId (App_startDownload syntax_message net s).1 = JUndefined /\
  (App_startDownload syntax_message net s).2 =
    [AFx_setLoading true;
     AFx_request (startDownload_request (st_currentUrl s) (st_currentDownloadType s) (st_currentQuality s));
     AFx_showProgress; AFx_toast "Download started!"; AFx_trackProgress JUndefined; AFx_setLoading false] /\
  req_endpoint (getProgress_request (st_currentDownloadId (App_startDownload syntax_message net s).1)) =
    "/api/progress/undefined".
Proof.
  intros Hu Hnet Hid. unfold App_startDownload.
  destruct (String.eqb_spec (st_currentUrl s) "") as [E|_]; [contradiction|].
  unfold API_startDownload. rewrite Hnet. simpl. rewrite Hid. simpl.
  split; [done|split; done].
Qed.

Lemma App_startDownload_missing_id_witness :
  let s := mkAppState "https://youtu.be/x" "video" "720" JNull in
  let net := fun _ : request => Fetch_response (mkResponse true (Body_json (JObj [("status", JStr "started")]))) in
  (st_currentUrl s <> ""%string /\
   (forall q, net q = Fetch_response (mkResponse true (Body_json (JObj [("status", JStr "started")])))) /\
   prop_lookup "download_id" [("status", JStr "started")] = JUndefined) /\
  req_endpoint (getProgress_request (st_currentDownloadId (App_startDownload (fun m => m) net s).1)) =
    "/api/progress/undefined".
Proof.
  intros s net.
  assert (H1 : st_currentUrl s <> ""%string) by discriminate.
  assert (H2 : forall q, net q = Fetch_response (mkResponse true (Body_json (JObj [("status", JStr "started")]))))
    by (intros; reflexivity).
  assert (H3 : prop_lookup "download_id" [("status", JStr "started")] = JUndefined) by reflexivity.
  split; [split; [exact H1|split; assumption]|].
  exact (proj2 (proj2 (App_startDownload_missing_id (fun m => m) net s _ H1 H2 H3))).
Defined.

